(** * llm-zoo: the model registry and its query, cost, selection and insight
    functions (src/ModelConfig.ts, src/ModelRegistry.ts, src/utils.ts).

    Conventions of the embedding.
    - A JavaScript [number] is an exact rational ([Q]); rounding, NaN and the
      infinities of IEEE doubles are outside the model.  Two numbers are the
      same JavaScript value when they are [Qeq].
    - [MODEL_CONFIGS] is the list of the registry object's own properties in
      iteration order, so that [Object.values] is [map snd].  The functions of
      utils.ts take the registry as a parameter and the results hold for
      every registry, whichever provider tables are merged into it.
    - The registry is an object literal: property reads ([MODEL_CONFIGS[name]])
      and the [in] operator also reach the members of [Object.prototype].
    - A function that can [throw] returns a [result]. *)

From Stdlib Require Import QArith NArith List Ascii String Bool Permutation Sorted PeanoNat Lia Lqa.
Import ListNotations.
Local Open Scope Q_scope.

(* ================================================================== *)
(** ** ModelConfig.ts: the record model *)

Inductive ReasoningEffort := XHIGH | HIGH | MEDIUM | LOW | NONE.

Inductive ModelProvider :=
  ANTHROPIC | OPENAI | GOOGLE | DEEPSEEK | XAI | MOONSHOT | DASHSCOPE | COPILOT | OTHERS.

(** [Object.values(ModelProvider)]: the members in declaration order. *)
Definition ModelProvider_values : list ModelProvider :=
  [ANTHROPIC; OPENAI; GOOGLE; DEEPSEEK; XAI; MOONSHOT; DASHSCOPE; COPILOT; OTHERS].

Definition ReasoningEffort_eqb (a b : ReasoningEffort) : bool :=
  match a, b with
  | XHIGH, XHIGH | HIGH, HIGH | MEDIUM, MEDIUM | LOW, LOW | NONE, NONE => true
  | _, _ => false
  end.

Definition ModelProvider_eqb (a b : ModelProvider) : bool :=
  match a, b with
  | ANTHROPIC, ANTHROPIC | OPENAI, OPENAI | GOOGLE, GOOGLE | DEEPSEEK, DEEPSEEK
  | XAI, XAI | MOONSHOT, MOONSHOT | DASHSCOPE, DASHSCOPE | COPILOT, COPILOT
  | OTHERS, OTHERS => true
  | _, _ => false
  end.

Record ModelCapabilities := mkCapabilities {
  supportsFunctionCalling : bool;
  supportsNativeMCPServer : bool;
  supportsNativeWebSearch : bool;
  supportsDynamicFilteringWebSearch : bool;
  supportsNativeCodeExecution : bool;
  supportsPromptCaching : bool;
  supportsAutoPromptCaching : bool;
  cacheDiscountFactor : Q;
  supportsReasoning : bool;
  supportsInterleavedThinking : bool;
  supportsReasoningEffort : bool;
  reasoningEffort : ReasoningEffort;
  supportsVision : bool;
  supportsNativePdf : bool;
  supportsNativeAudio : bool;
  supportsAssistantPrefill : bool;
  supportsPredictiveOutput : bool;
  supportsTokenCounting : bool;
  supportsSystemPrompt : bool;
  supportsIntermDevMsgs : bool
}.

Definition DEFAULT_MODEL_CAPABILITIES : ModelCapabilities := {|
  supportsFunctionCalling := true;
  supportsNativeMCPServer := false;
  supportsNativeWebSearch := false;
  supportsDynamicFilteringWebSearch := false;
  supportsNativeCodeExecution := false;
  supportsPromptCaching := false;
  supportsAutoPromptCaching := false;
  cacheDiscountFactor := 1.0;
  supportsReasoning := false;
  supportsInterleavedThinking := false;
  reasoningEffort := NONE;
  supportsVision := true;
  supportsNativePdf := false;
  supportsAssistantPrefill := false;
  supportsPredictiveOutput := false;
  supportsTokenCounting := false;
  supportsSystemPrompt := true;
  supportsIntermDevMsgs := false;
  supportsReasoningEffort := false;
  supportsNativeAudio := false
|}.

Record ModelConfig := mkConfig {
  name : string;
  fullName : string;
  provider : ModelProvider;
  maxOutputTokens : Q;
  inputPrice : Q;
  outputPrice : Q;
  contextWindow : Q;
  capabilities : ModelCapabilities;
  openRouterOnly : bool;
  openrouterFullName : option string;
  baseUrl : option string;
  requiresResponsesAPI : option bool;
  deprecated : option bool
}.

(** [keyof ModelCapabilities]. *)
Inductive CapabilityKey :=
| K_supportsFunctionCalling | K_supportsNativeMCPServer | K_supportsNativeWebSearch
| K_supportsDynamicFilteringWebSearch | K_supportsNativeCodeExecution
| K_supportsPromptCaching | K_supportsAutoPromptCaching | K_cacheDiscountFactor
| K_supportsReasoning | K_supportsInterleavedThinking | K_supportsReasoningEffort
| K_reasoningEffort | K_supportsVision | K_supportsNativePdf | K_supportsNativeAudio
| K_supportsAssistantPrefill | K_supportsPredictiveOutput | K_supportsTokenCounting
| K_supportsSystemPrompt | K_supportsIntermDevMsgs.

(** The JavaScript values a capability field, or a requirement on one, can
    hold.  [Partial<ModelCapabilities>] lets a field be written out as
    [undefined]. *)
Inductive JsValue :=
| VBool (b : bool)
| VNum (n : Q)
| VEffort (e : ReasoningEffort)
| VUndefined.

(** [c[key]] *)
Definition get (c : ModelCapabilities) (key : CapabilityKey) : JsValue :=
  match key with
  | K_supportsFunctionCalling => VBool (supportsFunctionCalling c)
  | K_supportsNativeMCPServer => VBool (supportsNativeMCPServer c)
  | K_supportsNativeWebSearch => VBool (supportsNativeWebSearch c)
  | K_supportsDynamicFilteringWebSearch => VBool (supportsDynamicFilteringWebSearch c)
  | K_supportsNativeCodeExecution => VBool (supportsNativeCodeExecution c)
  | K_supportsPromptCaching => VBool (supportsPromptCaching c)
  | K_supportsAutoPromptCaching => VBool (supportsAutoPromptCaching c)
  | K_cacheDiscountFactor => VNum (cacheDiscountFactor c)
  | K_supportsReasoning => VBool (supportsReasoning c)
  | K_supportsInterleavedThinking => VBool (supportsInterleavedThinking c)
  | K_supportsReasoningEffort => VBool (supportsReasoningEffort c)
  | K_reasoningEffort => VEffort (reasoningEffort c)
  | K_supportsVision => VBool (supportsVision c)
  | K_supportsNativePdf => VBool (supportsNativePdf c)
  | K_supportsNativeAudio => VBool (supportsNativeAudio c)
  | K_supportsAssistantPrefill => VBool (supportsAssistantPrefill c)
  | K_supportsPredictiveOutput => VBool (supportsPredictiveOutput c)
  | K_supportsTokenCounting => VBool (supportsTokenCounting c)
  | K_supportsSystemPrompt => VBool (supportsSystemPrompt c)
  | K_supportsIntermDevMsgs => VBool (supportsIntermDevMsgs c)
  end.

(** [a === b] *)
Definition strict_eq (a b : JsValue) : bool :=
  match a, b with
  | VBool x, VBool y => Bool.eqb x y
  | VNum x, VNum y => Qeq_bool x y
  | VEffort x, VEffort y => ReasoningEffort_eqb x y
  | VUndefined, VUndefined => true
  | _, _ => false
  end.

(** Truthiness of a value, as [filter((m) => m.capabilities[key])] takes it. *)
Definition truthy (v : JsValue) : bool :=
  match v with
  | VBool b => b
  | VNum n => negb (Qeq_bool n 0)
  | VEffort _ => true
  | VUndefined => false
  end.

(** [Object.entries(capabilities)] of a [Partial<ModelCapabilities>]. *)
Definition PartialCapabilities := list (CapabilityKey * JsValue).

(** The loop shared by [cheapest] and [smartpick]:
    [for (const [key, value] of Object.entries(capabilities))
       if (m.capabilities[key] !== value) return false;] *)
Fixpoint matches (c : ModelCapabilities) (required : PartialCapabilities) : bool :=
  match required with
  | [] => true
  | (key, value) :: rest =>
      if negb (strict_eq (get c key) value) then false else matches c rest
  end.

(* ================================================================== *)
(** ** Exceptions *)

Inductive exn :=
| Error (message : string)
| TypeError (message : string).

Inductive result (A : Type) :=
| Return (a : A)
| Throw (e : exn).
Arguments Return {A} a.
Arguments Throw {A} e.

Definition bind {A B} (r : result A) (k : A -> result B) : result B :=
  match r with
  | Return a => k a
  | Throw e => Throw e
  end.

Notation "x <- r ;; k" := (bind r (fun x => k))
  (at level 61, r at next level, right associativity).

(** [models.map(f)] for an [f] that may throw: left to right, the first
    exception ends the traversal. *)
Fixpoint mapM {A B} (f : A -> result B) (l : list A) : result (list B) :=
  match l with
  | [] => Return []
  | a :: rest => b <- f a ;; bs <- mapM f rest ;; Return (b :: bs)
  end.

(* ================================================================== *)
(** ** Array.prototype.sort

    [sort] is stable (ECMAScript 2019) and every comparator of utils.ts is a
    difference of numeric keys, hence consistent; the result is then the
    unique stable arrangement, whatever algorithm the engine runs.  It is
    computed here by insertion from the right: [x] stays in front of the
    elements that followed it unless the comparator is positive. *)

Section Sort.
Context {A : Type}.
Variable compareFn : A -> A -> Q.

Fixpoint insert (x : A) (l : list A) : list A :=
  match l with
  | [] => [x]
  | y :: rest =>
      if Qle_bool (compareFn x y) 0 then x :: y :: rest else y :: insert x rest
  end.

Fixpoint sort (l : list A) : list A :=
  match l with
  | [] => []
  | x :: rest => insert x (sort rest)
  end.
End Sort.

(* ================================================================== *)
(** ** ModelRegistry.ts: the registry object *)

(** Own properties of the registry object, in iteration order. *)
Definition Registry := list (string * ModelConfig).

(** Property names every ordinary object inherits from [Object.prototype]. *)
Definition Object_prototype : list string :=
  ["constructor"; "__defineGetter__"; "__defineSetter__"; "hasOwnProperty";
   "__lookupGetter__"; "__lookupSetter__"; "isPrototypeOf";
   "propertyIsEnumerable"; "toString"; "valueOf"; "__proto__";
   "toLocaleString"]%string.

Fixpoint mem (s : string) (l : list string) : bool :=
  match l with
  | [] => false
  | x :: rest => if String.eqb x s then true else mem s rest
  end.

(** What a property read on the registry yields when it is not [undefined]:
    a catalog entry, or a member of [Object.prototype] (a function, or the
    prototype object itself for [__proto__]), which has none of the fields of
    a [ModelConfig]. *)
Inductive Found :=
| Entry (m : ModelConfig)
| Builtin (name : string).

(** An assignment [o[k] = v] on an object none of whose keys is an array
    index (the records [insights] builds, keyed by provider and by label):
    a new key goes to the end. *)
Fixpoint set {K V} (eqb : K -> K -> bool) (o : list (K * V)) (k : K) (v : V)
  : list (K * V) :=
  match o with
  | [] => [(k, v)]
  | (k', v') :: rest =>
      if eqb k' k then (k', v) :: rest else (k', v') :: set eqb rest k v
  end.

Fixpoint assoc {K V} (eqb : K -> K -> bool) (o : list (K * V)) (k : K) : option V :=
  match o with
  | [] => None
  | (k', v) :: rest => if eqb k' k then Some v else assoc eqb rest k
  end.

(** [s.replace(pattern, replacement)] with a string pattern: the first
    occurrence only. *)
Fixpoint replace (pattern replacement s : string) : string :=
  if String.prefix pattern s
  then replacement ++ String.substring (String.length pattern) (String.length s) s
  else match s with
       | EmptyString => EmptyString
       | String c rest => String c (replace pattern replacement rest)
       end.

Definition key_name (k : CapabilityKey) : string :=
  match k with
  | K_supportsFunctionCalling => "supportsFunctionCalling"
  | K_supportsNativeMCPServer => "supportsNativeMCPServer"
  | K_supportsNativeWebSearch => "supportsNativeWebSearch"
  | K_supportsDynamicFilteringWebSearch => "supportsDynamicFilteringWebSearch"
  | K_supportsNativeCodeExecution => "supportsNativeCodeExecution"
  | K_supportsPromptCaching => "supportsPromptCaching"
  | K_supportsAutoPromptCaching => "supportsAutoPromptCaching"
  | K_cacheDiscountFactor => "cacheDiscountFactor"
  | K_supportsReasoning => "supportsReasoning"
  | K_supportsInterleavedThinking => "supportsInterleavedThinking"
  | K_supportsReasoningEffort => "supportsReasoningEffort"
  | K_reasoningEffort => "reasoningEffort"
  | K_supportsVision => "supportsVision"
  | K_supportsNativePdf => "supportsNativePdf"
  | K_supportsNativeAudio => "supportsNativeAudio"
  | K_supportsAssistantPrefill => "supportsAssistantPrefill"
  | K_supportsPredictiveOutput => "supportsPredictiveOutput"
  | K_supportsTokenCounting => "supportsTokenCounting"
  | K_supportsSystemPrompt => "supportsSystemPrompt"
  | K_supportsIntermDevMsgs => "supportsIntermDevMsgs"
  end%string.

(** The [tokens] argument of the cost functions. *)
Record Tokens := mkTokens {
  input : Q;
  output : Q;
  cached : option Q
}.

(** [ModelConfig | string] *)
Inductive Model :=
| Config (m : ModelConfig)
| Key (name : string).

(** The element type of [compareCosts]' result, [{ model, cost }]. *)
Module Priced.
Record t := mk { model : ModelConfig; cost : Q }.
End Priced.

(** The [options] argument of [cheapest]. *)
Module Options.
Record t := mk { minContext : option Q; provider : option ModelProvider }.
End Options.

Inductive Metric := price | context | output_.
Inductive Order := asc | desc.

Module Insights.
Record t := mk {
  totalModels : nat;
  providers : list (ModelProvider * nat);
  capabilities : list (string * nat);
  pricing_cheapest : option ModelConfig;
  pricing_mostExpensive : option ModelConfig;
  context_smallest : option ModelConfig;
  context_largest : option ModelConfig
}.
End Insights.

(* ================================================================== *)
(** ** utils.ts *)

Section Utils.
Variable MODEL_CONFIGS : Registry.

Definition Object_values : list ModelConfig := map snd MODEL_CONFIGS.

(** [MODEL_CONFIGS[name]]: own properties first, then the prototype. *)
Definition lookup (name : string) : option Found :=
  match assoc String.eqb MODEL_CONFIGS name with
  | Some m => Some (Entry m)
  | None => if mem name Object_prototype then Some (Builtin name) else None
  end.

Definition resolve (fullName' : string) : option ModelConfig :=
  find (fun m => String.eqb (fullName m) fullName') Object_values.

(** [name in MODEL_CONFIGS] *)
Definition exists_ (name : string) : bool :=
  match assoc String.eqb MODEL_CONFIGS name with
  | Some _ => true
  | None => mem name Object_prototype
  end.

Definition from (provider' : ModelProvider) : list ModelConfig :=
  filter (fun m => ModelProvider_eqb (provider m) provider') Object_values.

Definition where_ (predicate : ModelCapabilities -> bool) : list ModelConfig :=
  filter (fun m => predicate (capabilities m)) Object_values.

Definition supporting (capability : CapabilityKey) : list ModelConfig :=
  filter (fun m =>
            let value := get (capabilities m) capability in
            match value with
            | VBool b => b
            | _ => negb (strict_eq value VUndefined)
            end) Object_values.

Definition withContext (minTokens : Q) : list ModelConfig :=
  filter (fun m => Qle_bool minTokens (contextWindow m)) Object_values.

Definition directAccess : list ModelConfig :=
  filter (fun m => negb (openRouterOnly m)) Object_values.

Definition openRouterOnly_ : list ModelConfig :=
  filter (fun m => openRouterOnly m) Object_values.

(** *** Cost intelligence *)

(** [typeof model === 'string' ? lookup(model) : model] *)
Definition config_of (model : Model) : option Found :=
  match model with
  | Key name' => lookup name'
  | Config m => Some (Entry m)
  end.

(** The template literal [`Unknown model: ${model}`]. *)
Definition unknown_model (model : Model) : string :=
  ("Unknown model: " ++
     match model with Key name' => name' | Config _ => "[object Object]" end)%string.

(** The body of [cost] below its guard.  On a member of [Object.prototype]
    [config.capabilities] is [undefined], and reading its
    [cacheDiscountFactor] throws. *)
Definition read_of_undefined : exn :=
  TypeError "Cannot read properties of undefined (reading 'cacheDiscountFactor')".

Definition cost_of (config : Found) (tokens : Tokens) : result Q :=
  match config with
  | Entry config =>
      let input := input tokens in
      let output := output tokens in
      let cached := match cached tokens with Some c => c | None => 0 end in
      let uncached := input - cached in
      let inputCost := (uncached / 1000000) * inputPrice config in
      let cacheCost :=
        (cached / 1000000) * inputPrice config
        * cacheDiscountFactor (capabilities config) in
      let outputCost := (output / 1000000) * outputPrice config in
      Return (inputCost + cacheCost + outputCost)
  | Builtin _ => Throw read_of_undefined
  end.

Definition cost (model : Model) (tokens : Tokens) : result Q :=
  match config_of model with
  | None => Throw (Error (unknown_model model))
  | Some config => cost_of config tokens
  end.

Definition maxCost (model : Model) (inputTokens : Q) : result Q :=
  match config_of model with
  | None => Throw (Error (unknown_model model))
  | Some (Entry config) =>
      cost (Config config)
        {| input := inputTokens; output := maxOutputTokens config; cached := None |}
  | Some (Builtin _) =>
      (* [config.maxOutputTokens] is [undefined], and [cost(config, ...)]
         throws as in [cost_of] *)
      Throw read_of_undefined
  end.

Definition compareCosts (models : list Model) (tokens : Tokens)
  : result (list Priced.t) :=
  priced <- mapM (fun m =>
              match config_of m with
              | None => Throw (Error (unknown_model m))
              | Some (Entry config) =>
                  c <- cost (Config config) tokens ;;
                  Return {| Priced.model := config; Priced.cost := c |}
              | Some (Builtin _) =>
                  (* [cost(config, tokens)] throws as in [cost_of] *)
                  Throw read_of_undefined
              end) models ;;
  Return (sort (fun a b => Priced.cost a - Priced.cost b) priced).

(** *** Smart selection *)

Definition cheapest (capabilities' : PartialCapabilities)
           (options : option Options.t) : option ModelConfig :=
  let candidates :=
    filter (fun m =>
      if match options with
         | Some o =>
             match Options.minContext o with
             | Some minContext =>
                 negb (Qeq_bool minContext 0)
                 && negb (Qle_bool minContext (contextWindow m))
             | None => false
             end
         | None => false
         end
      then false
      else if match options with
              | Some o =>
                  match Options.provider o with
                  | Some p => negb (ModelProvider_eqb (provider m) p)
                  | None => false
                  end
              | None => false
              end
      then false
      else matches (capabilities m) capabilities') Object_values in
  match candidates with
  | [] => None
  | _ =>
      nth_error
        (sort (fun a b => inputPrice a + outputPrice a
                          - (inputPrice b + outputPrice b)) candidates) 0
  end.

Definition smartpick (maxPricePerMillion : Q)
           (capabilities' : option PartialCapabilities) : option ModelConfig :=
  let candidates :=
    filter (fun m => Qle_bool (inputPrice m + outputPrice m) maxPricePerMillion)
      Object_values in
  let candidates :=
    match capabilities' with
    | Some required => filter (fun m => matches (capabilities m) required) candidates
    | None => candidates
    end in
  match candidates with
  | [] => None
  | _ =>
      nth_error
        (sort (fun a b => (inputPrice b + outputPrice b)
                          - (inputPrice a + outputPrice a)) candidates) 0
  end.

Definition getValue (by_ : Metric) (m : ModelConfig) : Q :=
  match by_ with
  | price => inputPrice m + outputPrice m
  | context => contextWindow m
  | output_ => maxOutputTokens m
  end.

(** [order] is an optional parameter defaulting to ['asc']. *)
Definition ranked (by_ : Metric) (order : option Order) : list ModelConfig :=
  let order := match order with Some o => o | None => asc end in
  sort (fun a b =>
          let diff := getValue by_ a - getValue by_ b in
          match order with asc => diff | desc => - diff end) Object_values.

(** *** Insights *)

Definition capabilityKeys : list CapabilityKey :=
  [K_supportsFunctionCalling; K_supportsReasoning; K_supportsVision;
   K_supportsNativeCodeExecution; K_supportsNativeWebSearch;
   K_supportsPromptCaching; K_supportsNativePdf; K_supportsNativeAudio].

Definition insights : Insights.t :=
  let models := Object_values in
  let providers :=
    fold_left (fun providers provider' =>
                 set ModelProvider_eqb providers provider'
                   (List.length (filter (fun m => ModelProvider_eqb (provider m) provider')
                              models)))
      ModelProvider_values [] in
  let capabilities' :=
    fold_left (fun acc key =>
                 let shortKey :=
                   replace "Native" "" (replace "supports" "" (key_name key)) in
                 set String.eqb acc shortKey
                   (List.length (filter (fun m => truthy (get (capabilities m) key))
                              models)))
      capabilityKeys [] in
  let byPrice :=
    sort (fun a b => inputPrice a + outputPrice a
                     - (inputPrice b + outputPrice b)) models in
  let byContext := sort (fun a b => contextWindow a - contextWindow b) models in
  {| Insights.totalModels := List.length models;
     Insights.providers := providers;
     Insights.capabilities := capabilities';
     Insights.pricing_cheapest := nth_error byPrice 0;
     Insights.pricing_mostExpensive := nth_error byPrice (List.length byPrice - 1);
     Insights.context_smallest := nth_error byContext 0;
     Insights.context_largest := nth_error byContext (List.length byContext - 1) |}.
End Utils.

(* ================================================================== *)
(** ** providers/*.ts: the tables at hand *)

Definition CapabilityKey_eqb (a b : CapabilityKey) : bool :=
  String.eqb (key_name a) (key_name b).

(** [{ ...base, k1: v1, ..., kn: vn }] on capability sets: the last write to
    a key wins. *)
Definition spread_capabilities (base : ModelCapabilities)
           (overrides : PartialCapabilities) : ModelCapabilities :=
  let written key := assoc CapabilityKey_eqb (rev overrides) key in
  let flag key :=
    match written key, get base key with
    | Some (VBool b), _ => b
    | _, VBool b => b
    | _, _ => false
    end in
  {| supportsFunctionCalling := flag K_supportsFunctionCalling;
     supportsNativeMCPServer := flag K_supportsNativeMCPServer;
     supportsNativeWebSearch := flag K_supportsNativeWebSearch;
     supportsDynamicFilteringWebSearch := flag K_supportsDynamicFilteringWebSearch;
     supportsNativeCodeExecution := flag K_supportsNativeCodeExecution;
     supportsPromptCaching := flag K_supportsPromptCaching;
     supportsAutoPromptCaching := flag K_supportsAutoPromptCaching;
     cacheDiscountFactor :=
       match written K_cacheDiscountFactor with
       | Some (VNum n) => n
       | _ => cacheDiscountFactor base
       end;
     supportsReasoning := flag K_supportsReasoning;
     supportsInterleavedThinking := flag K_supportsInterleavedThinking;
     supportsReasoningEffort := flag K_supportsReasoningEffort;
     reasoningEffort :=
       match written K_reasoningEffort with
       | Some (VEffort e) => e
       | _ => reasoningEffort base
       end;
     supportsVision := flag K_supportsVision;
     supportsNativePdf := flag K_supportsNativePdf;
     supportsNativeAudio := flag K_supportsNativeAudio;
     supportsAssistantPrefill := flag K_supportsAssistantPrefill;
     supportsPredictiveOutput := flag K_supportsPredictiveOutput;
     supportsTokenCounting := flag K_supportsTokenCounting;
     supportsSystemPrompt := flag K_supportsSystemPrompt;
     supportsIntermDevMsgs := flag K_supportsIntermDevMsgs |}.

(** The number a decimal digit stands for. *)
Definition digit (c : Ascii.ascii) : option N :=
  let n := Ascii.N_of_ascii c in
  if N.leb 48 n && N.leb n 57 then Some (N.sub n 48) else None.

Fixpoint decimal (acc : N) (s : string) : option N :=
  match s with
  | EmptyString => Some acc
  | String c rest =>
      match digit c with
      | Some d => decimal (N.add (N.mul 10 acc) d) rest
      | None => None
      end
  end.

(** The array index a property key stands for, if any: a canonical numeric
    string (no sign, no leading zero) below 2^32 - 1. *)
Definition array_index (key : string) : option N :=
  match key with
  | EmptyString => None
  | String c rest =>
      if Ascii.eqb c "0"%char
      then match rest with EmptyString => Some 0%N | _ => None end
      else match decimal 0 key with
           | Some n => if N.leb n 4294967294 then Some n else None
           | None => None
           end
  end.

(** Where a new array-index key goes: in ascending order among the
    array-index keys, which an object lists before all its other keys. *)
Fixpoint insert_index (n : N) (k : string) (v : ModelConfig) (o : Registry)
  : Registry :=
  match o with
  | [] => [(k, v)]
  | (k', v') :: rest =>
      match array_index k' with
      | Some n' =>
          if N.ltb n' n then (k', v') :: insert_index n k v rest
          else (k, v) :: (k', v') :: rest
      | None => (k, v) :: (k', v') :: rest
      end
  end.

(** The assignment [o[k] = v] on a registry object: a key the object has
    keeps its place; a new key goes among the array indices or, when it is
    not one, to the end. *)
Definition put (o : Registry) (k : string) (v : ModelConfig) : Registry :=
  if mem k (map fst o) then set String.eqb o k v
  else match array_index k with
       | Some n => insert_index n k v o
       | None => o ++ [(k, v)]
       end.

(** [{ ...a, ...b }] on provider tables: the properties of [b] are assigned
    to a copy of [a] in the order [b] lists them. *)
Definition spread (a b : Registry) : Registry :=
  fold_left (fun o kv => put o (fst kv) (snd kv)) b a.

Definition OTHER_DEFAULT_CAPABILITIES : ModelCapabilities :=
  spread_capabilities DEFAULT_MODEL_CAPABILITIES [].

Definition llama31 : ModelConfig := {|
  name := "llama31";
  fullName := "meta-llama/llama-3.1-405b-instruct";
  openrouterFullName := Some "meta-llama/llama-3.1-405b-instruct"%string;
  provider := OTHERS;
  maxOutputTokens := 131072;
  contextWindow := 131072;
  inputPrice := 3.0;
  outputPrice := 3.0;
  capabilities := OTHER_DEFAULT_CAPABILITIES;
  openRouterOnly := true;
  baseUrl := None; requiresResponsesAPI := None; deprecated := None |}.

Definition qvq_72b : ModelConfig := {|
  name := "qvq-72b";
  fullName := "qwen/qvq-72b-preview";
  openrouterFullName := Some "qwen/qvq-72b-preview"%string;
  provider := OTHERS;
  maxOutputTokens := 4096;
  contextWindow := 128000;
  inputPrice := 0.25;
  outputPrice := 0.5;
  capabilities := spread_capabilities OTHER_DEFAULT_CAPABILITIES [];
  openRouterOnly := true;
  baseUrl := None; requiresResponsesAPI := None; deprecated := None |}.

Definition OTHER_MODELS : Registry :=
  [("llama31", llama31); ("qvq-72b", qvq_72b)]%string.

Definition DASHSCOPE_DEFAULT_CAPABILITIES : ModelCapabilities :=
  spread_capabilities DEFAULT_MODEL_CAPABILITIES
    [(K_supportsPromptCaching, VBool false); (K_supportsVision, VBool true);
     (K_supportsSystemPrompt, VBool true)].

Definition qwen3max : ModelConfig := {|
  name := "qwen3max";
  fullName := "qwen3-max";
  openrouterFullName := Some "qwen/qwen-max"%string;
  provider := DASHSCOPE;
  maxOutputTokens := 65536;
  contextWindow := 262144;
  inputPrice := 1.2;
  outputPrice := 6;
  capabilities :=
    spread_capabilities DASHSCOPE_DEFAULT_CAPABILITIES [(K_supportsVision, VBool false)];
  openRouterOnly := false;
  baseUrl := None; requiresResponsesAPI := None; deprecated := None |}.

Definition qwenplus : ModelConfig := {|
  name := "qwenplus";
  fullName := "qwen-plus";
  openrouterFullName := Some "qwen/qwen-plus"%string;
  provider := DASHSCOPE;
  maxOutputTokens := 32768;
  contextWindow := 1000000;
  inputPrice := 0.4;
  outputPrice := 1.2;
  capabilities :=
    spread_capabilities DASHSCOPE_DEFAULT_CAPABILITIES
      [(K_supportsVision, VBool false); (K_supportsReasoning, VBool true)];
  openRouterOnly := false;
  baseUrl := None; requiresResponsesAPI := None; deprecated := None |}.

Definition qwenturbo : ModelConfig := {|
  name := "qwenturbo";
  fullName := "qwen-turbo-latest";
  openrouterFullName := Some "qwen/qwen-turbo"%string;
  provider := DASHSCOPE;
  maxOutputTokens := 8192;
  contextWindow := 131072;
  inputPrice := 0.05;
  outputPrice := 0.5;
  capabilities :=
    spread_capabilities DASHSCOPE_DEFAULT_CAPABILITIES
      [(K_supportsVision, VBool false); (K_supportsReasoning, VBool true)];
  openRouterOnly := false;
  baseUrl := None; requiresResponsesAPI := None; deprecated := None |}.

Definition DASHSCOPE_MODELS : Registry :=
  [("qwen3max", qwen3max); ("qwenplus", qwenplus); ("qwenturbo", qwenturbo)]%string.

Definition COPILOT_DEFAULT_CAPABILITIES : ModelCapabilities :=
  spread_capabilities DEFAULT_MODEL_CAPABILITIES
    [(K_supportsVision, VBool true); (K_supportsNativePdf, VBool false)].

Definition copilot4o : ModelConfig := {|
  name := "copilot4o";
  fullName := "copilot-gpt-4o";
  openrouterFullName := None;
  provider := COPILOT;
  maxOutputTokens := 8192;
  contextWindow := 128000;
  inputPrice := 0;
  outputPrice := 0;
  capabilities :=
    spread_capabilities COPILOT_DEFAULT_CAPABILITIES [(K_reasoningEffort, VEffort MEDIUM)];
  openRouterOnly := false;
  baseUrl := None; requiresResponsesAPI := None; deprecated := None |}.

Definition COPILOT_MODELS : Registry := [("copilot4o", copilot4o)]%string.

Definition XAI_DEFAULT_CAPABILITIES : ModelCapabilities :=
  spread_capabilities DEFAULT_MODEL_CAPABILITIES [(K_supportsVision, VBool false)].

Definition grok4 : ModelConfig := {|
  name := "grok4";
  fullName := "grok-4-0709";
  openrouterFullName := Some "x-ai/grok-4-0709"%string;
  provider := XAI;
  maxOutputTokens := 128000;
  contextWindow := 256000;
  inputPrice := 3.0;
  outputPrice := 15.0;
  capabilities :=
    spread_capabilities XAI_DEFAULT_CAPABILITIES
      [(K_supportsReasoning, VBool true); (K_supportsReasoningEffort, VBool false)];
  openRouterOnly := false;
  baseUrl := None; requiresResponsesAPI := None; deprecated := None |}.

Definition grok3 : ModelConfig := {|
  name := "grok3";
  fullName := "grok-3-beta";
  openrouterFullName := Some "x-ai/grok-3"%string;
  provider := XAI;
  maxOutputTokens := 131072;
  contextWindow := 131072;
  inputPrice := 3.0;
  outputPrice := 15.0;
  capabilities :=
    spread_capabilities XAI_DEFAULT_CAPABILITIES
      [(K_supportsReasoning, VBool false); (K_supportsReasoningEffort, VBool false)];
  openRouterOnly := false;
  baseUrl := None; requiresResponsesAPI := None; deprecated := None |}.

(** The first two entries of [XAI_MODELS]; their combined prices tie. *)
Definition XAI_GROK : Registry := [("grok4", grok4); ("grok3", grok3)]%string.



(** The part of [MODEL_CONFIGS] assembled from the tables above, in the
    order of ModelRegistry.ts. *)
Definition SAMPLE_CONFIGS : Registry :=
  spread (spread (spread [] OTHER_MODELS) DASHSCOPE_MODELS) COPILOT_MODELS.

(* ================================================================== *)
(** ** Vocabulary of the statements *)

Section Extremes.
Context {A : Type}.
Variable key : A -> Q.
Variable P : A -> Prop.

(** Among the elements of [l] that satisfy [P], [m] has the least key and
    is the first to have it. *)
Definition first_least (l : list A) (m : A) : Prop :=
  exists l1 l2, l = l1 ++ m :: l2 /\ P m /\
    (forall y, In y l1 -> P y -> key m < key y) /\
    (forall y, In y l2 -> P y -> key m <= key y).

(** Among the elements of [l] that satisfy [P], [m] has the greatest key and
    is the first to have it. *)
Definition first_greatest (l : list A) (m : A) : Prop :=
  exists l1 l2, l = l1 ++ m :: l2 /\ P m /\
    (forall y, In y l1 -> P y -> key y < key m) /\
    (forall y, In y l2 -> P y -> key y <= key m).

(** Among the elements of [l] that satisfy [P], [m] has the greatest key and
    is the last to have it. *)
Definition last_greatest (l : list A) (m : A) : Prop :=
  exists l1 l2, l = l1 ++ m :: l2 /\ P m /\
    (forall y, In y l1 -> P y -> key y <= key m) /\
    (forall y, In y l2 -> P y -> key y < key m).

(** No two positions of [l] carry the same key. *)
Fixpoint no_ties (l : list A) : bool :=
  match l with
  | [] => true
  | x :: rest =>
      forallb (fun y => negb (Qeq_bool (key x) (key y))) rest && no_ties rest
  end.

(** The elements of [l] whose key is [v], in the order of [l]. *)
Definition keyed (v : Q) (l : list A) : list A :=
  filter (fun x => Qeq_bool (key x) v) l.
End Extremes.

Definition anything {A : Type} (_ : A) : Prop := True.

(** Combined price, as the specification defines it. *)
Definition combined (m : ModelConfig) : Q := inputPrice m + outputPrice m.

(** The value the specification ranks by, for each metric. *)
Definition measured (by_ : Metric) (m : ModelConfig) : Q :=
  match by_ with
  | price => combined m
  | context => contextWindow m
  | output_ => maxOutputTokens m
  end.

(** The capability set [c] holds [value] in the field [key]: the same
    boolean, the same number, the same effort level. *)
Inductive holds (c : ModelCapabilities) : CapabilityKey -> JsValue -> Prop :=
| holds_supportsFunctionCalling :
    holds c K_supportsFunctionCalling (VBool (supportsFunctionCalling c))
| holds_supportsNativeMCPServer :
    holds c K_supportsNativeMCPServer (VBool (supportsNativeMCPServer c))
| holds_supportsNativeWebSearch :
    holds c K_supportsNativeWebSearch (VBool (supportsNativeWebSearch c))
| holds_supportsDynamicFilteringWebSearch :
    holds c K_supportsDynamicFilteringWebSearch
          (VBool (supportsDynamicFilteringWebSearch c))
| holds_supportsNativeCodeExecution :
    holds c K_supportsNativeCodeExecution (VBool (supportsNativeCodeExecution c))
| holds_supportsPromptCaching :
    holds c K_supportsPromptCaching (VBool (supportsPromptCaching c))
| holds_supportsAutoPromptCaching :
    holds c K_supportsAutoPromptCaching (VBool (supportsAutoPromptCaching c))
| holds_cacheDiscountFactor n :
    n == cacheDiscountFactor c -> holds c K_cacheDiscountFactor (VNum n)
| holds_supportsReasoning :
    holds c K_supportsReasoning (VBool (supportsReasoning c))
| holds_supportsInterleavedThinking :
    holds c K_supportsInterleavedThinking (VBool (supportsInterleavedThinking c))
| holds_supportsReasoningEffort :
    holds c K_supportsReasoningEffort (VBool (supportsReasoningEffort c))
| holds_reasoningEffort :
    holds c K_reasoningEffort (VEffort (reasoningEffort c))
| holds_supportsVision :
    holds c K_supportsVision (VBool (supportsVision c))
| holds_supportsNativePdf :
    holds c K_supportsNativePdf (VBool (supportsNativePdf c))
| holds_supportsNativeAudio :
    holds c K_supportsNativeAudio (VBool (supportsNativeAudio c))
| holds_supportsAssistantPrefill :
    holds c K_supportsAssistantPrefill (VBool (supportsAssistantPrefill c))
| holds_supportsPredictiveOutput :
    holds c K_supportsPredictiveOutput (VBool (supportsPredictiveOutput c))
| holds_supportsTokenCounting :
    holds c K_supportsTokenCounting (VBool (supportsTokenCounting c))
| holds_supportsSystemPrompt :
    holds c K_supportsSystemPrompt (VBool (supportsSystemPrompt c))
| holds_supportsIntermDevMsgs :
    holds c K_supportsIntermDevMsgs (VBool (supportsIntermDevMsgs c)).

(** [m] has every explicitly specified field, by equality. *)
Definition satisfies (required : PartialCapabilities) (m : ModelConfig) : Prop :=
  forall key value, In (key, value) required -> holds (capabilities m) key value.

(** The constraints of [cheapest], as the specification words them. *)
Definition meets (required : PartialCapabilities) (options : option Options.t)
           (m : ModelConfig) : Prop :=
  satisfies required m /\
  (forall o minContext, options = Some o -> Options.minContext o = Some minContext ->
                        minContext <= contextWindow m) /\
  (forall o p, options = Some o -> Options.provider o = Some p -> provider m = p).

(** The constraints [cheapest] enforces: those of the specification, with a
    minimum context of 0 standing for no minimum. *)
Definition enforced (required : PartialCapabilities) (options : option Options.t)
           (m : ModelConfig) : Prop :=
  satisfies required m /\
  (forall o minContext, options = Some o -> Options.minContext o = Some minContext ->
                        ~ minContext == 0 -> minContext <= contextWindow m) /\
  (forall o p, options = Some o -> Options.provider o = Some p -> provider m = p).


(** The sentence of the specification on [supporting], taken literally:
    the flag is true, or, for a field that is not boolean, the field is
    neither absent nor at its value in [DEFAULT_MODEL_CAPABILITIES]. *)
Definition supporting_spec (registry : Registry) (capability : CapabilityKey)
  : list ModelConfig :=
  filter (fun m =>
            match get (capabilities m) capability with
            | VBool b => b
            | VUndefined => false
            | v => negb (strict_eq v (get DEFAULT_MODEL_CAPABILITIES capability))
            end) (Object_values registry).

(** What the specification asks of [cost] on a usage whose [cached] exceeds
    [input]: reject it, or clamp [cached] to [input]. *)
Definition clamps_or_rejects (registry : Registry) (entry : ModelConfig)
           (tokens : Tokens) : Prop :=
  (exists e, cost registry (Config entry) tokens = Throw e) \/
  (exists v clamped,
      cost registry (Config entry) tokens = Return v /\
      cost registry (Config entry)
           {| input := input tokens; output := output tokens;
              cached := Some (input tokens) |} = Return clamped /\
      v == clamped).

(** The entry of the specification's cost scenarios. *)
Definition scenario_A : ModelConfig := {|
  name := "A";
  fullName := "A";
  openrouterFullName := None;
  provider := ANTHROPIC;
  maxOutputTokens := 64000;
  contextWindow := 200000;
  inputPrice := 3;
  outputPrice := 15;
  capabilities :=
    spread_capabilities DEFAULT_MODEL_CAPABILITIES [(K_cacheDiscountFactor, VNum 0.1)];
  openRouterOnly := false;
  baseUrl := None; requiresResponsesAPI := None; deprecated := None |}.



(** Registry invariant of the data model: context windows are positive. *)
Definition positive_windows (registry : Registry) : Prop :=
  Forall (fun m => 0 < contextWindow m) (Object_values registry).

(* ================================================================== *)
(** ** ModelRegistry.ts: assembly of the registry *)

(** [MODEL_CONFIGS = { ...T1, ..., ...Tn }] *)
Definition merge (tables : list Registry) : Registry :=
  fold_left spread tables [].

(** [MODELS = Object.keys(MODEL_CONFIGS)] *)
Definition MODELS (registry : Registry) : list string := map fst registry.

(* ================================================================== *)
(** ** utils.ts: the legacy aliases that are not plain renamings *)

Section Legacy.
Variable MODEL_CONFIGS : Registry.

(** [cachedInputTokens] is an optional parameter defaulting to 0. *)
Definition calculateCost (model : Model) (inputTokens outputTokens : Q)
           (cachedInputTokens : option Q) : result Q :=
  let cachedInputTokens :=
    match cachedInputTokens with Some c => c | None => 0 end in
  cost MODEL_CONFIGS model
       {| input := inputTokens; output := outputTokens;
          cached := Some cachedInputTokens |}.

(** [ascending] is an optional parameter defaulting to [true]. *)
Definition sortModelsByMetric (metric : Metric) (ascending : option bool)
  : list ModelConfig :=
  let ascending := match ascending with Some b => b | None => true end in
  ranked MODEL_CONFIGS metric (Some (if ascending then asc else desc)).

(** [minContextWindow !== undefined ? { minContext: minContextWindow } : {}] *)
Definition findCheapestModel (requirements : PartialCapabilities)
           (minContextWindow : option Q) : option ModelConfig :=
  cheapest MODEL_CONFIGS requirements
    (Some match minContextWindow with
          | Some n => {| Options.minContext := Some n; Options.provider := None |}
          | None => {| Options.minContext := None; Options.provider := None |}
          end).
End Legacy.

(* ================================================================== *)
(** ** schemas.ts: runtime validation

    The outcome of [safeParse] on a value that has the TypeScript type the
    schema is written for: the checks on field types hold by typing, fields
    the schema does not list are stripped, and what is left to decide are the
    refinements on numbers and the [.url()] check, whose implementation is
    zod's and is taken as a parameter. *)

Section Schemas.
Variable url : string -> bool.

Definition positive (n : Q) : bool := negb (Qle_bool n 0).

Definition ModelCapabilitiesSchema (c : ModelCapabilities) : bool :=
  Qle_bool 0 (cacheDiscountFactor c) && Qle_bool (cacheDiscountFactor c) 1.

Definition ModelConfigSchema (m : ModelConfig) : bool :=
  positive (maxOutputTokens m)
  && Qle_bool 0 (inputPrice m)
  && Qle_bool 0 (outputPrice m)
  && positive (contextWindow m)
  && ModelCapabilitiesSchema (capabilities m)
  && match baseUrl m with Some u => url u | None => true end.

(** [z.record(z.string(), ModelConfigSchema)] *)
Definition ModelRegistrySchema (registry : Registry) : bool :=
  forallb (fun kv => ModelConfigSchema (snd kv)) registry.
End Schemas.

(* ================================================================== *)
(** ** Facts on [sort] *)

Lemma Qle_bool_false (x y : Q) : Qle_bool x y = false -> y < x.
Proof.
  intro H. apply Qnot_le_lt. intro L.
  apply Qle_bool_iff in L. congruence.
Qed.

Lemma nth_error_last {A} (s : list A) (m : A) :
  nth_error s (List.length s - 1) = Some m -> exists r, s = r ++ [m].
Proof.
  destruct s as [|a s']; [discriminate | ].
  destruct (exists_last (l := a :: s')) as [r [z E]]; [discriminate | ].
  rewrite E, length_app. simpl.
  replace (List.length r + 1 - 1)%nat with (List.length r) by lia.
  rewrite nth_error_app2 by lia. rewrite Nat.sub_diag. simpl.
  intro H. injection H as ->. now exists r.
Qed.

Lemma filter_split {A} (f : A -> bool) (l c1 c2 : list A) (m : A) :
  filter f l = c1 ++ m :: c2 ->
  exists l1 l2, l = l1 ++ m :: l2 /\ filter f l1 = c1 /\ filter f l2 = c2 /\ f m = true.
Proof.
  revert c1. induction l as [|x l IH]; intros c1 H; simpl in H.
  - destruct c1; discriminate.
  - destruct (f x) eqn:Fx.
    + destruct c1 as [|c c1]; simpl in H.
      * injection H as -> <-. exists [], l. simpl. auto.
      * injection H as -> H. destruct (IH _ H) as (l1 & l2 & -> & E1 & E2 & Fm).
        exists (c :: l1), l2. simpl. rewrite Fx, E1. auto.
    + destruct (IH _ H) as (l1 & l2 & -> & E1 & E2 & Fm).
      exists (x :: l1), l2. simpl. rewrite Fx. auto.
Qed.

Lemma StronglySorted_weaken {A} (R R' : A -> A -> Prop) (l : list A) :
  (forall a b, R a b -> R' a b) -> StronglySorted R l -> StronglySorted R' l.
Proof.
  intros W S. induction S as [|a l S IH F]; constructor; auto.
  eapply Forall_impl; [ | exact F]. intros b. apply W.
Qed.

Lemma StronglySorted_snoc {A} (R : A -> A -> Prop) (l : list A) (a : A) :
  StronglySorted R l -> Forall (fun y => R y a) l -> StronglySorted R (l ++ [a]).
Proof.
  intros S. induction S as [|b l S IH F]; intros Fa; simpl.
  - repeat constructor.
  - inversion Fa; subst. constructor; auto.
    apply Forall_app. split; auto.
Qed.

Lemma StronglySorted_rev {A} (R : A -> A -> Prop) (l : list A) :
  StronglySorted R l -> StronglySorted (fun a b => R b a) (rev l).
Proof.
  intros S. induction S as [|a l S IH F]; simpl.
  - constructor.
  - apply StronglySorted_snoc; auto.
    apply Forall_rev. exact F.
Qed.

Section SortFacts.
Context {A : Type}.
Variable compareFn : A -> A -> Q.
Variable key : A -> Q.
Hypothesis compare_key : forall a b, compareFn a b <= 0 <-> key a <= key b.

Lemma insert_perm (x : A) (l : list A) : Permutation (insert compareFn x l) (x :: l).
Proof.
  induction l as [|y l IH]; simpl.
  - reflexivity.
  - destruct (Qle_bool (compareFn x y) 0).
    + reflexivity.
    + rewrite IH. apply perm_swap.
Qed.

Lemma sort_perm (l : list A) : Permutation (sort compareFn l) l.
Proof.
  induction l as [|x l IH]; simpl.
  - reflexivity.
  - rewrite insert_perm. now constructor.
Qed.

Lemma sort_nil (l : list A) : sort compareFn l = [] -> l = [].
Proof.
  intro E. apply Permutation_nil. rewrite <- E. apply sort_perm.
Qed.

Lemma insert_sorted (x : A) (l : list A) :
  StronglySorted (fun a b => key a <= key b) l ->
  StronglySorted (fun a b => key a <= key b) (insert compareFn x l).
Proof.
  intro S. induction S as [|y l S IH F]; simpl.
  - repeat constructor.
  - destruct (Qle_bool (compareFn x y) 0) eqn:E.
    + apply Qle_bool_iff, compare_key in E.
      constructor; [constructor; assumption | ].
      constructor; [exact E | ].
      eapply Forall_impl; [ | exact F]. simpl. intros z Hz.
      apply Qle_trans with (key y); assumption.
    + apply Qle_bool_false in E.
      assert (key y < key x) as L.
      { apply Qnot_le_lt. intro C. apply compare_key in C. lra. }
      constructor; [exact IH | ].
      rewrite (insert_perm x l). constructor; [ | exact F].
      lra.
Qed.

Lemma sort_sorted (l : list A) :
  StronglySorted (fun a b => key a <= key b) (sort compareFn l).
Proof.
  induction l as [|x l IH]; simpl.
  - constructor.
  - apply insert_sorted, IH.
Qed.

Lemma insert_stable (v : Q) (x : A) (l : list A) :
  keyed key v (insert compareFn x l) = keyed key v (x :: l).
Proof.
  unfold keyed. induction l as [|y l IH]; simpl.
  - reflexivity.
  - destruct (Qle_bool (compareFn x y) 0) eqn:E.
    + reflexivity.
    + simpl. rewrite IH. simpl.
      destruct (Qeq_bool (key x) v) eqn:Ex, (Qeq_bool (key y) v) eqn:Ey;
        try reflexivity.
      apply Qeq_bool_iff in Ex, Ey. apply Qle_bool_false in E.
      exfalso. assert (compareFn x y <= 0) by (apply compare_key; lra). lra.
Qed.

Lemma sort_stable (v : Q) (l : list A) :
  keyed key v (sort compareFn l) = keyed key v l.
Proof.
  induction l as [|x l IH]; simpl.
  - reflexivity.
  - rewrite insert_stable. unfold keyed in *. simpl. now rewrite IH.
Qed.

Lemma sort_head (l : list A) (m : A) :
  nth_error (sort compareFn l) 0 = Some m -> first_least key anything l m.
Proof.
  revert m. induction l as [|x l IH]; intros m; simpl.
  - discriminate.
  - destruct (sort compareFn l) as [|m' r] eqn:S; simpl.
    + intro H. injection H as ->. apply sort_nil in S. subst l.
      exists [], []. repeat split; intros y [].
    + destruct (IH m' eq_refl) as (l1 & l2 & -> & _ & B1 & B2).
      destruct (Qle_bool (compareFn x m') 0) eqn:E; simpl; intro H; injection H as <-.
      * apply Qle_bool_iff, compare_key in E.
        exists [], (l1 ++ m' :: l2). repeat split; [intros y [] | ].
        intros y Hy _. apply in_app_or in Hy. destruct Hy as [Hy | [<- | Hy]].
        -- specialize (B1 y Hy I). lra.
        -- exact E.
        -- specialize (B2 y Hy I). lra.
      * apply Qle_bool_false in E.
        assert (key m' < key x) as L.
        { apply Qnot_le_lt. intro C. apply compare_key in C. lra. }
        exists (x :: l1), l2. repeat split; auto.
        intros y [<- | Hy] _; [exact L | now apply B1].
Qed.

Lemma insert_snoc (x : A) (r : list A) (z : A) :
  (insert compareFn x (r ++ [z]) = r ++ [z; x]
   /\ Forall (fun y => key y < key x) (r ++ [z]))
  \/ (exists r', insert compareFn x (r ++ [z]) = r' ++ [z]
                 /\ Exists (fun y => key x <= key y) (r ++ [z])).
Proof.
  induction r as [|a r IH]; simpl.
  - destruct (Qle_bool (compareFn x z) 0) eqn:E.
    + right. exists [x]. split; [reflexivity | ].
      constructor. now apply compare_key, Qle_bool_iff.
    + left. split; [reflexivity | ]. constructor; [ | constructor].
      apply Qle_bool_false in E. apply Qnot_le_lt. intro C.
      apply compare_key in C. lra.
  - destruct (Qle_bool (compareFn x a) 0) eqn:E.
    + right. exists (x :: a :: r). split; [reflexivity | ].
      constructor. now apply compare_key, Qle_bool_iff.
    + apply Qle_bool_false in E.
      assert (key a < key x) as L.
      { apply Qnot_le_lt. intro C. apply compare_key in C. lra. }
      destruct IH as [[-> F] | (r' & -> & X)].
      * left. split; [reflexivity | ]. now constructor.
      * right. exists (a :: r'). split; [reflexivity | ]. now apply Exists_cons_tl.
Qed.

Lemma sort_last (l : list A) (m : A) :
  nth_error (sort compareFn l) (List.length (sort compareFn l) - 1) = Some m ->
  last_greatest key anything l m.
Proof.
  intro H. apply nth_error_last in H. destruct H as [r H]. revert r m H.
  induction l as [|x l IH]; intros r m; simpl.
  - destruct r; discriminate.
  - destruct (sort compareFn l) as [|s0 s] eqn:S.
    + apply sort_nil in S. subst l. simpl. intro H.
      change [x] with ([] ++ [x]) in H. apply app_inj_tail in H.
      destruct H as [_ ->]. exists [], []. repeat split; intros y [].
    + destruct (exists_last (l := s0 :: s)) as [r0 [z Z]]; [discriminate | ].
      rewrite Z. rewrite Z in S.
      destruct (IH r0 z Z) as (l1 & l2 & E & _ & B1 & B2).
      assert (forall y, In y l -> key y <= key z) as Top.
      { intros y Hy. rewrite E in Hy. apply in_app_or in Hy.
        destruct Hy as [Hy | [<- | Hy]].
        - now apply B1.
        - lra.
        - specialize (B2 y Hy I). lra. }
      destruct (insert_snoc x r0 z) as [[-> F] | (r' & -> & X)]; intro H.
      * change (r0 ++ [z; x]) with (r0 ++ [z] ++ [x]) in H.
        rewrite app_assoc in H. apply app_inj_tail in H. destruct H as [_ <-].
        exists [], l. repeat split; [intros y [] | ].
        intros y Hy _. rewrite <- S in F.
        rewrite Forall_forall in F. apply F.
        apply Permutation_in with l; [symmetry; apply sort_perm | exact Hy].
      * apply app_inj_tail in H. destruct H as [_ <-].
        apply Exists_exists in X. destruct X as (y & Hy & Lxy).
        rewrite <- S in Hy.
        apply (Permutation_in _ (sort_perm l)) in Hy. apply Top in Hy.
        exists (x :: l1), l2. rewrite E. repeat split; auto.
        intros y' [<- | Hy'] _; [lra | now apply B1].
Qed.
End SortFacts.

Section Ties.
Context {A : Type}.
Variable key : A -> Q.

Lemma no_ties_perm (l l' : list A) :
  Permutation l l' -> no_ties key l = true -> no_ties key l' = true.
Proof.
  induction 1 as [ | x l l' P IH | x y l | l l' l'' P1 IH1 P2 IH2]; simpl.
  - auto.
  - rewrite !andb_true_iff, !forallb_forall. intros [F N]. split; auto.
    intros y Hy. apply F. apply Permutation_in with l'; [now symmetry | exact Hy].
  - rewrite (Qeq_bool_comm (key y) (key x)).
    destruct (Qeq_bool (key x) (key y)); simpl; [auto | ].
    destruct (forallb _ l), (forallb _ l); simpl; auto.
  - auto.
Qed.

Lemma sorted_strict (R R' : A -> A -> Prop) (l : list A) :
  (forall a b, R a b -> ~ key a == key b -> R' a b) ->
  no_ties key l = true -> StronglySorted R l -> StronglySorted R' l.
Proof.
  intros W N S. induction S as [|a l S IH F]; simpl in N.
  - constructor.
  - apply andb_true_iff in N. destruct N as [N1 N2].
    constructor; [now apply IH | ].
    rewrite forallb_forall in N1. rewrite Forall_forall in *.
    intros y Hy. apply W; [now apply F | ].
    specialize (N1 y Hy). apply negb_true_iff in N1.
    now apply Qeq_bool_neq.
Qed.

Lemma sorted_unique (l l' : list A) :
  Permutation l l' ->
  StronglySorted (fun a b => key a < key b) l ->
  StronglySorted (fun a b => key a < key b) l' -> l = l'.
Proof.
  revert l'. induction l as [|a l IH]; intros l' P S S'.
  - symmetry. now apply Permutation_nil.
  - destruct l' as [|b l'].
    + symmetry in P. apply Permutation_nil in P. discriminate.
    + inversion S as [|? ? S0 F]; subst. inversion S' as [|? ? S0' F']; subst.
      rewrite Forall_forall in F, F'.
      assert (a = b) as ->.
      { assert (In a (b :: l')) as Ha by (apply (Permutation_in _ P); now left).
        assert (In b (a :: l)) as Hb
            by (apply Permutation_in with (b :: l'); [now symmetry | now left]).
        destruct Ha as [<- | Ha]; [reflexivity | ].
        destruct Hb as [-> | Hb]; [reflexivity | ].
        specialize (F _ Hb). specialize (F' _ Ha). lra. }
      f_equal. apply IH; auto. now apply Permutation_cons_inv in P.
Qed.
End Ties.

Section Reverse.
Context {A : Type}.
Variables ascending descending : A -> A -> Q.
Variable key : A -> Q.
Hypothesis ascending_key : forall a b, ascending a b <= 0 <-> key a <= key b.
Hypothesis descending_key : forall a b, descending a b <= 0 <-> key b <= key a.

Lemma sort_rev (l : list A) :
  no_ties key l = true -> rev (sort ascending l) = sort descending l.
Proof.
  intro N.
  assert (forall a b, descending a b <= 0 <-> - key a <= - key b) as D.
  { intros a b. rewrite descending_key. split; lra. }
  apply (sorted_unique (fun x => - key x)).
  - rewrite <- Permutation_rev, (sort_perm ascending), (sort_perm descending).
    reflexivity.
  - apply StronglySorted_weaken with (R := fun a b => key b < key a);
      [intros; lra | ].
    apply StronglySorted_rev.
    apply (sorted_strict key (fun a b => key a <= key b)).
    + intros a b L E. apply Qle_lt_or_eq in L. tauto.
    + apply (no_ties_perm key l); [symmetry; apply sort_perm | exact N].
    + apply (sort_sorted ascending key ascending_key).
  - apply (sorted_strict key (fun a b => - key a <= - key b)).
    + intros a b L E. apply Qle_lt_or_eq in L. destruct L as [L | L]; [exact L | ].
      exfalso. apply E. lra.
    + apply (no_ties_perm key l); [symmetry; apply sort_perm | exact N].
    + apply (sort_sorted descending (fun x => - key x) D).
Qed.
End Reverse.

(** Two sorted arrangements that keep every class of equal key in the same
    order are the same list: the result of a stable sort does not depend on
    the algorithm. *)
Section Stable.
Context {A : Type}.
Variable compareFn : A -> A -> Q.
Variable key : A -> Q.
Hypothesis compare_key : forall a b, compareFn a b <= 0 <-> key a <= key b.

Lemma keyed_cons (v : Q) (a : A) (l : list A) :
  keyed key v (a :: l)
  = if Qeq_bool (key a) v then a :: keyed key v l else keyed key v l.
Proof. reflexivity. Qed.

Lemma keyed_head (a : A) (l : list A) :
  keyed key (key a) (a :: l) = a :: keyed key (key a) l.
Proof. rewrite keyed_cons. now rewrite Qeq_bool_refl. Qed.

Lemma sorted_head_least (a : A) (s : list A) (x : A) :
  StronglySorted (fun a b => key a <= key b) (a :: s) ->
  In x (keyed key (key x) (a :: s)) -> key a <= key x.
Proof.
  intros S H. apply filter_In in H. destruct H as [[<- | H] _]; [lra | ].
  inversion S as [|? ? _ F]; subst. rewrite Forall_forall in F. now apply F.
Qed.

Lemma stable_sorted_unique (s s' : list A) :
  StronglySorted (fun a b => key a <= key b) s ->
  StronglySorted (fun a b => key a <= key b) s' ->
  (forall v, keyed key v s = keyed key v s') -> s = s'.
Proof.
  revert s'. induction s as [|a s IH]; intros [|a' s'] S S' K.
  - reflexivity.
  - specialize (K (key a')). rewrite keyed_head in K. discriminate K.
  - specialize (K (key a)). rewrite keyed_head in K. discriminate K.
  - assert (key a == key a') as E.
    { assert (key a' <= key a).
      { apply (sorted_head_least a' s' a S'). rewrite <- K, keyed_head. now left. }
      assert (key a <= key a').
      { apply (sorted_head_least a s a' S). rewrite K, keyed_head. now left. }
      lra. }
    assert (a = a') as <-.
    { specialize (K (key a)). rewrite keyed_head, keyed_cons in K.
      rewrite (Qeq_eq_bool _ _ (Qeq_sym _ _ E)) in K. now injection K. }
    f_equal. apply IH.
    + now inversion S.
    + now inversion S'.
    + intro v. specialize (K v). rewrite !keyed_cons in K.
      destruct (Qeq_bool (key a) v); [now injection K | exact K].
Qed.

Lemma sort_unique (l s : list A) :
  StronglySorted (fun a b => key a <= key b) s ->
  (forall v, keyed key v s = keyed key v l) ->
  s = sort compareFn l.
Proof.
  intros S K. apply stable_sorted_unique.
  - exact S.
  - apply (sort_sorted compareFn key compare_key).
  - intro v. rewrite (sort_stable compareFn key compare_key). apply K.
Qed.
End Stable.

(* ================================================================== *)
(** ** The cost engine *)

(** Division by the constant 1e6, in the form the arithmetic tactics take. *)
Ltac per_million :=
  unfold Qdiv; change (/ 1000000) with (1 # 1000000).

(** C1. For a catalog entry and a usage with input >= 0, output >= 0 and
    0 <= cached <= input, [cost] returns
    ((input - cached)/1e6)*inputPrice + (cached/1e6)*inputPrice*cacheDiscountFactor
    + (output/1e6)*outputPrice, and an omitted [cached] counts as 0. *)
Theorem cost_formula (registry : Registry) (entry : ModelConfig) (i o c : Q) :
  0 <= i -> 0 <= o -> 0 <= c <= i ->
  cost registry (Config entry) {| input := i; output := o; cached := Some c |}
  = Return ((i - c) / 1000000 * inputPrice entry
            + c / 1000000 * inputPrice entry * cacheDiscountFactor (capabilities entry)
            + o / 1000000 * outputPrice entry)
  /\ cost registry (Config entry) {| input := i; output := o; cached := None |}
     = cost registry (Config entry) {| input := i; output := o; cached := Some 0 |}.
Proof.
  intros _ _ _. split; reflexivity.
Qed.

(** The cached scenario of the specification: 0.006 + 0.0024 + 0.075. *)
Lemma cost_formula_scenario :
  exists v,
    cost SAMPLE_CONFIGS (Config scenario_A)
         {| input := 10000; output := 5000; cached := Some 8000 |} = Return v
    /\ v == 0.0834.
Proof.
  destruct (cost_formula SAMPLE_CONFIGS scenario_A 10000 5000 8000) as [E _];
    [ unfold Qle; simpl; lia | unfold Qle; simpl; lia
    | split; unfold Qle; simpl; lia | ].
  eexists. split; [exact E | ]. vm_compute. reflexivity.
Defined.

(** The uncached scenario of the specification: 0.03 + 0.075. *)
Example cost_scenario_uncached :
  exists v,
    cost SAMPLE_CONFIGS (Config scenario_A)
         {| input := 10000; output := 5000; cached := None |} = Return v
    /\ v == 0.105.
Proof. eexists. split; [reflexivity | ]. vm_compute. reflexivity. Qed.

(** C7, as stated, fails: with [cached] above [input] the call returns, and
    what it returns is neither the clamped amount nor even positive. *)
Lemma cost_cached_above_input :
  exists v,
    cost SAMPLE_CONFIGS (Config scenario_A)
         {| input := 1000; output := 0; cached := Some 2000 |} = Return v
    /\ v < 0
    /\ ~ clamps_or_rejects SAMPLE_CONFIGS scenario_A
         {| input := 1000; output := 0; cached := Some 2000 |}.
Proof.
  eexists. split; [reflexivity | ]. split; [vm_compute; reflexivity | ].
  intros [[e E] | (v & w & E1 & E2 & Q)].
  - discriminate E.
  - injection E1 as <-. injection E2 as <-. vm_compute in Q. discriminate Q.
Qed.

(** C7, amended.  [cost] does not validate the usage: with [cached] above
    [input] it returns the value of its formula, whose uncached term is
    negative for a positive input price. *)
Theorem cost_unvalidated (registry : Registry) (entry : ModelConfig) (i o c : Q) :
  i < c -> 0 < inputPrice entry ->
  exists v,
    cost registry (Config entry) {| input := i; output := o; cached := Some c |}
    = Return v
    /\ v == (i - c) / 1000000 * inputPrice entry
            + c / 1000000 * inputPrice entry * cacheDiscountFactor (capabilities entry)
            + o / 1000000 * outputPrice entry
    /\ (i - c) / 1000000 * inputPrice entry < 0.
Proof.
  intros L P. eexists. split; [reflexivity | ]. split; [reflexivity | ].
  assert ((i - c) / 1000000 < 0) as N by (per_million; lra).
  setoid_replace 0 with (0 * inputPrice entry) by ring.
  apply Qmult_lt_compat_r; assumption.
Qed.

Lemma cost_unvalidated_scenario :
  exists v,
    cost SAMPLE_CONFIGS (Config scenario_A)
         {| input := 1000; output := 0; cached := Some 2000 |} = Return v
    /\ v == - 0.0024.
Proof.
  destruct (cost_unvalidated SAMPLE_CONFIGS scenario_A 1000 0 2000) as (v & E & V & _);
    [vm_compute; reflexivity | vm_compute; reflexivity | ].
  exists v. split; [exact E | ]. rewrite V. vm_compute. reflexivity.
Defined.

(** C9. On an entry with non-negative prices and n >= 0, [maxCost] is the
    cost of n input tokens, [maxOutputTokens] output tokens and no cache hit,
    and it bounds the cost of every output of at most [maxOutputTokens]
    tokens. *)
Theorem maxCost_dominates (registry : Registry) (entry : ModelConfig) (n : Q) :
  0 <= inputPrice entry -> 0 <= outputPrice entry -> 0 <= n ->
  maxCost registry (Config entry) n
  = cost registry (Config entry)
         {| input := n; output := maxOutputTokens entry; cached := Some 0 |}
  /\ forall k, 0 <= k <= maxOutputTokens entry ->
       exists worst actual,
         maxCost registry (Config entry) n = Return worst
         /\ cost registry (Config entry)
                 {| input := n; output := k; cached := None |} = Return actual
         /\ actual <= worst.
Proof.
  intros _ Po _. split; [reflexivity | ].
  intros k [_ K]. do 2 eexists. split; [reflexivity | ]. split; [reflexivity | ].
  apply Qplus_le_r. apply Qmult_le_compat_r; [ | exact Po].
  cbn [output]. per_million. lra.
Qed.

Lemma maxCost_dominates_qwenturbo :
  exists worst actual,
    maxCost SAMPLE_CONFIGS (Config qwenturbo) 50000 = Return worst
    /\ cost SAMPLE_CONFIGS (Config qwenturbo)
            {| input := 50000; output := 4000; cached := None |} = Return actual
    /\ actual <= worst.
Proof.
  destruct (maxCost_dominates SAMPLE_CONFIGS qwenturbo 50000) as [_ D];
    [unfold Qle; simpl; lia | unfold Qle; simpl; lia | unfold Qle; simpl; lia | ].
  apply (D 4000). split; unfold Qle; simpl; lia.
Defined.

Lemma mapM_return {A B} (f : A -> result B) (g : A -> B) (l : list A) :
  (forall a, In a l -> f a = Return (g a)) -> mapM f l = Return (map g l).
Proof.
  induction l as [|a l IH]; intro H; simpl.
  - reflexivity.
  - rewrite (H a) by now left. simpl.
    rewrite IH by (intros; apply H; now right). reflexivity.
Qed.

Lemma difference_key {A} (key : A -> Q) (a b : A) :
  key a - key b <= 0 <-> key a <= key b.
Proof. split; lra. Qed.

(** C8. On a list of catalog entries [compareCosts] returns one
    [{ model, cost }] pair per entry, with the cost [cost] gives for it, in
    ascending order of cost, pairs of equal cost staying in input order. *)
Theorem compareCosts_sorted (registry : Registry) (entries : list ModelConfig)
        (usage : Tokens) :
  exists (costs : ModelConfig -> Q) (priced : list Priced.t),
    (forall e, cost registry (Config e) usage = Return (costs e))
    /\ let pairs :=
         map (fun e => {| Priced.model := e; Priced.cost := costs e |}) entries in
       compareCosts registry (map Config entries) usage = Return priced
       /\ Permutation priced pairs
       /\ StronglySorted (fun a b => Priced.cost a <= Priced.cost b) priced
       /\ forall v, keyed Priced.cost v priced = keyed Priced.cost v pairs.
Proof.
  exists (fun e => match cost_of (Entry e) usage with Return v => v | Throw _ => 0 end).
  eexists. split; [reflexivity | ]. intro pairs.
  unfold compareCosts.
  erewrite mapM_return with
    (g := fun m => match m with
                   | Config e =>
                       {| Priced.model := e;
                          Priced.cost :=
                            match cost_of (Entry e) usage with
                            | Return v => v
                            | Throw _ => 0
                            end |}
                   | Key _ => {| Priced.model := scenario_A; Priced.cost := 0 |}
                   end).
  2:{ intros a Ha. apply in_map_iff in Ha. destruct Ha as (e & <- & _). reflexivity. }
  rewrite map_map. fold pairs. simpl. split; [reflexivity | ].
  split; [apply sort_perm | ].
  split.
  - apply (sort_sorted _ Priced.cost (difference_key Priced.cost)).
  - intro v. apply (sort_stable _ Priced.cost (difference_key Priced.cost)).
Qed.

(** The scenario of the specification: B, the cheaper entry, comes first. *)
Example compareCosts_scenario :
  exists a b,
    compareCosts XAI_GROK [Config grok4; Config qwenturbo]
                 {| input := 1000000; output := 0; cached := None |}
    = Return [{| Priced.model := qwenturbo; Priced.cost := b |};
              {| Priced.model := grok4; Priced.cost := a |}]
    /\ b == 0.05 /\ a == 3.
Proof. do 2 eexists. split; [reflexivity | ]. split; vm_compute; reflexivity. Qed.

(** *** Failures of the cost engine *)

Lemma mem_In (s : string) (l : list string) : mem s l = true <-> In s l.
Proof.
  induction l as [|x l IH]; simpl.
  - split; [discriminate | tauto].
  - destruct (String.eqb_spec x s) as [-> | N].
    + tauto.
    + rewrite IH. split; [tauto | intros [E | H]; [contradiction | exact H]].
Qed.

(** A key without a registry entry is reported, with the key in the
    message, as long as [Object.prototype] has no member of that name. *)
Lemma cost_unknown_model (registry : Registry) (name' : string) (tokens : Tokens) :
  assoc String.eqb registry name' = None -> ~ In name' Object_prototype ->
  cost registry (Key name') tokens = Throw (Error ("Unknown model: " ++ name'))
  /\ (forall n, maxCost registry (Key name') n
                = Throw (Error ("Unknown model: " ++ name')))
  /\ compareCosts registry [Key name'] tokens
     = Throw (Error ("Unknown model: " ++ name')).
Proof.
  intros Own Proto.
  assert (lookup registry name' = None) as L.
  { unfold lookup. rewrite Own.
    destruct (mem name' Object_prototype) eqn:M; [ | reflexivity].
    apply mem_In in M. contradiction. }
  unfold cost, maxCost, compareCosts. simpl. rewrite L. auto.
Qed.

(** On a catalog entry the three functions return. *)
Lemma cost_of_entry (registry : Registry) (entry : ModelConfig) (tokens : Tokens) :
  (exists v, cost registry (Config entry) tokens = Return v)
  /\ (forall n, exists v, maxCost registry (Config entry) n = Return v)
  /\ exists l, compareCosts registry [Config entry] tokens = Return l.
Proof.
  repeat split; [ | intro n | ]; eexists; reflexivity.
Qed.

(** The error [cost] documents is thrown exactly on a string for which the
    registry read yields [undefined]. *)
Lemma cost_error_iff (registry : Registry) (model : Model) (tokens : Tokens)
      (message : string) :
  cost registry model tokens = Throw (Error message) <->
  exists name', model = Key name' /\ lookup registry name' = None
                /\ message = ("Unknown model: " ++ name')%string.
Proof.
  unfold cost. destruct model as [entry | name']; simpl.
  - split; [discriminate | intros (n & E & _); discriminate].
  - destruct (lookup registry name') as [[entry | b] | ] eqn:L; simpl.
    + split; [discriminate | intros (n & E & C & _)].
      injection E as <-. congruence.
    + unfold read_of_undefined.
      split; [discriminate | intros (n & E & C & _)].
      injection E as <-. congruence.
    + split.
      * intro H. injection H as <-. now exists name'.
      * intros (n & E & _ & ->). injection E as <-. reflexivity.
Qed.

(** The query engine signals absence by value: [lookup] and [exists] agree,
    and [resolve] is absent exactly when no entry has the full name. *)
Lemma lookup_absent (registry : Registry) (name' : string) :
  lookup registry name' = None <-> exists_ registry name' = false.
Proof.
  unfold lookup, exists_.
  destruct (assoc String.eqb registry name'); [split; discriminate | ].
  destruct (mem name' Object_prototype); split; auto; discriminate.
Qed.

Lemma resolve_absent (registry : Registry) (fullName' : string) :
  resolve registry fullName' = None <->
  forall m, In m (Object_values registry) -> fullName m <> fullName'.
Proof.
  unfold resolve. split.
  - intros H m Hm E. apply (find_none _ _ H) in Hm.
    apply String.eqb_neq in Hm. contradiction.
  - intro H. induction (Object_values registry) as [|m l IH]; simpl; [reflexivity | ].
    destruct (String.eqb_spec (fullName m) fullName') as [E | _].
    + exfalso. apply (H m); [now left | exact E].
    + apply IH. intros; apply H; now right.
Qed.

(** C4, where the code departs from it.  A string that names a member of
    [Object.prototype] and no registry entry passes the guard of the three
    cost functions: the read [MODEL_CONFIGS[name]] finds the inherited member,
    which is truthy, and the failure is the [TypeError] of reading
    [config.capabilities.cacheDiscountFactor], not the documented error. *)
Theorem cost_inherited_key (registry : Registry) (name' : string) (tokens : Tokens) :
  In name' Object_prototype -> assoc String.eqb registry name' = None ->
  exists_ registry name' = true
  /\ cost registry (Key name') tokens = Throw read_of_undefined
  /\ (forall n, maxCost registry (Key name') n = Throw read_of_undefined)
  /\ compareCosts registry [Key name'] tokens = Throw read_of_undefined.
Proof.
  intros Proto Own. apply mem_In in Proto.
  assert (lookup registry name' = Some (Builtin name')) as L.
  { unfold lookup. now rewrite Own, Proto. }
  unfold exists_, cost, maxCost, compareCosts. simpl. rewrite Own, L. auto.
Qed.

Lemma cost_inherited_constructor :
  cost SAMPLE_CONFIGS (Key "constructor")
       {| input := 1; output := 1; cached := None |}
  = Throw (TypeError
             "Cannot read properties of undefined (reading 'cacheDiscountFactor')").
Proof.
  apply (cost_inherited_key SAMPLE_CONFIGS "constructor");
    [simpl; tauto | reflexivity].
Defined.

(* ================================================================== *)
(** ** The query engine *)

Lemma filter_all {A} (f : A -> bool) (l : list A) :
  (forall x, In x l -> f x = true) -> filter f l = l.
Proof.
  induction l as [|x l IH]; intro H; simpl.
  - reflexivity.
  - rewrite (H x) by now left. f_equal. apply IH. intros; apply H; now right.
Qed.

(** C6, as stated, fails: both entries of [OTHER_MODELS] hold the default
    [cacheDiscountFactor] of 1.0, and [supporting] returns them. *)
Lemma supporting_default_value :
  supporting OTHER_MODELS K_cacheDiscountFactor = [llama31; qvq_72b]
  /\ supporting_spec OTHER_MODELS K_cacheDiscountFactor = []
  /\ strict_eq (get (capabilities llama31) K_cacheDiscountFactor)
               (get DEFAULT_MODEL_CAPABILITIES K_cacheDiscountFactor) = true.
Proof. repeat split. Qed.

(** C6, amended.  For a boolean field [supporting] returns the entries whose
    flag is true; for [cacheDiscountFactor] and [reasoningEffort] it returns
    the entries whose value is not [undefined], which is every entry. *)
Theorem supporting_defined (registry : Registry) (capability : CapabilityKey) :
  supporting registry capability
  = match capability with
    | K_cacheDiscountFactor | K_reasoningEffort => Object_values registry
    | _ => filter (fun m => strict_eq (get (capabilities m) capability) (VBool true))
             (Object_values registry)
    end.
Proof.
  unfold supporting.
  destruct capability;
    first [ apply filter_all; intros; reflexivity
          | apply filter_ext; intro m; simpl;
            match goal with |- ?b = _ => destruct b; reflexivity end ].
Qed.

(* ================================================================== *)
(** ** The selection engine *)

Section ExtremesOfFilter.
Context {A : Type}.
Variable key : A -> Q.
Variable f : A -> bool.
Variable P : A -> Prop.
Variable l : list A.
Hypothesis f_P : forall y, In y l -> (f y = true <-> P y).

Ltac through_filter :=
  intros (c1 & c2 & E & _ & B1 & B2);
  destruct (filter_split f l c1 c2 _ E) as (l1 & l2 & El & F1 & F2 & Fm);
  exists l1, l2; split; [exact El | ];
  split; [apply f_P; [rewrite El; apply in_elt | exact Fm] | ];
  split; intros y Hy Py;
  [ apply B1; [ | exact I]; rewrite <- F1 | apply B2; [ | exact I]; rewrite <- F2 ];
  (apply filter_In; split; [exact Hy | ]);
  (apply f_P; [rewrite El; apply in_or_app; simpl; tauto | exact Py]).

Lemma first_least_filter (m : A) :
  first_least key anything (filter f l) m -> first_least key P l m.
Proof. through_filter. Qed.

Lemma last_greatest_filter (m : A) :
  last_greatest key anything (filter f l) m -> last_greatest key P l m.
Proof. through_filter. Qed.

End ExtremesOfFilter.


Lemma ModelProvider_eqb_eq (a b : ModelProvider) :
  ModelProvider_eqb a b = true <-> a = b.
Proof. destruct a, b; simpl; split; intro H; try reflexivity; discriminate H. Qed.




Lemma sort_head_some {A} (compareFn : A -> A -> Q) (l : list A) :
  l <> [] -> exists m, nth_error (sort compareFn l) 0 = Some m.
Proof.
  intro N. destruct (sort compareFn l) as [|m r] eqn:S.
  - apply sort_nil in S. contradiction.
  - now exists m.
Qed.


(** The comparators of the price sorts are differences of combined prices. *)
Lemma price_key (a b : ModelConfig) :
  inputPrice a + outputPrice a - (inputPrice b + outputPrice b) <= 0
  <-> combined a <= combined b.
Proof. unfold combined. split; lra. Qed.





(** On an entry with a positive context window the constraints enforced
    are the constraints of the specification. *)
Lemma enforced_meets (required : PartialCapabilities) (options : option Options.t)
      (m : ModelConfig) :
  0 < contextWindow m -> (enforced required options m <-> meets required options m).
Proof.
  intro W. unfold enforced, meets. split; intros (S & C & P).
  - split; [exact S | ]. split; [ | exact P].
    intros o x Eo Ex. destruct (Qeq_dec x 0) as [Z | NZ]; [lra | now apply (C o)].
  - split; [exact S | ]. split; [ | exact P].
    intros o x Eo Ex _. now apply (C o).
Qed.

(** No entry of the sample is from Anthropic: there is no result. *)
Example cheapest_absent :
  cheapest SAMPLE_CONFIGS []
    (Some {| Options.minContext := None; Options.provider := Some ANTHROPIC |}) = None.
Proof. reflexivity. Qed.

Lemma filter_and {A} (f g : A -> bool) (l : list A) :
  filter g (filter f l) = filter (fun x => f x && g x) l.
Proof.
  induction l as [|x l IH]; simpl.
  - reflexivity.
  - destruct (f x); simpl; [destruct (g x) | ]; now rewrite IH.
Qed.

Lemma opposite_key {A} (key : A -> Q) (a b : A) :
  key b - key a <= 0 <-> - key a <= - key b.
Proof. split; lra. Qed.



Example smartpick_scenario :
  map combined (Object_values DASHSCOPE_MODELS) = [1.2 + 6; 0.4 + 1.2; 0.05 + 0.5]
  /\ smartpick DASHSCOPE_MODELS 5 None = Some qwenplus.
Proof. split; reflexivity. Qed.

Lemma keyed_opp {A} (key : A -> Q) (v : Q) (l : list A) :
  keyed (fun x => - key x) (- v) l = keyed key v l.
Proof.
  apply filter_ext. intro x.
  destruct (Qeq_bool (key x) v) eqn:E.
  - apply Qeq_bool_iff in E. apply Qeq_bool_iff. lra.
  - apply Qeq_bool_neq in E.
    destruct (Qeq_bool (- key x) (- v)) eqn:E'; [ | reflexivity].
    apply Qeq_bool_iff in E'. exfalso. apply E. lra.
Qed.

Lemma negated_key {A} (key : A -> Q) (a b : A) :
  - (key a - key b) <= 0 <-> - key a <= - key b.
Proof. split; lra. Qed.

Lemma negated_key_desc {A} (key : A -> Q) (a b : A) :
  - (key a - key b) <= 0 <-> key b <= key a.
Proof. split; lra. Qed.

(** The comparator of [ranked] is a difference of the values the
    specification ranks by. *)
Lemma measured_key (by_ : Metric) (a b : ModelConfig) :
  getValue by_ a - getValue by_ b <= 0 <-> measured by_ a <= measured by_ b.
Proof. destruct by_; unfold getValue, measured, combined; split; lra. Qed.

Lemma measured_key_opp (by_ : Metric) (a b : ModelConfig) :
  - (getValue by_ a - getValue by_ b) <= 0 <-> - measured by_ a <= - measured by_ b.
Proof. destruct by_; unfold getValue, measured, combined; split; lra. Qed.

Lemma measured_key_desc (a b : ModelConfig) :
  - (getValue price a - getValue price b) <= 0 <-> combined b <= combined a.
Proof. unfold getValue, combined; split; lra. Qed.

(** C10. [ranked] returns all the registry entries, in ascending or
    descending order, as asked, of the metric's value (inputPrice +
    outputPrice for price, contextWindow for context, maxOutputTokens for
    output), entries of equal value staying in registry order; when no two
    entries have the same combined price, the ascending price ranking
    reversed is the descending one. *)
Theorem ranked_spec (registry : Registry) (by_ : Metric) :
  (forall order, Permutation (ranked registry by_ order) (Object_values registry))
  /\ StronglySorted (fun a b => measured by_ a <= measured by_ b)
       (ranked registry by_ (Some asc))
  /\ StronglySorted (fun a b => measured by_ b <= measured by_ a)
       (ranked registry by_ (Some desc))
  /\ (forall order v,
         keyed (measured by_) v (ranked registry by_ order)
         = keyed (measured by_) v (Object_values registry))
  /\ ranked registry by_ None = ranked registry by_ (Some asc)
  /\ (no_ties combined (Object_values registry) = true ->
      rev (ranked registry price (Some asc)) = ranked registry price (Some desc)).
Proof.
  unfold ranked. repeat split.
  - intro order. apply sort_perm.
  - apply (sort_sorted _ (measured by_) (measured_key by_)).
  - eapply StronglySorted_weaken;
      [ | apply (sort_sorted _ (fun x => - measured by_ x) (measured_key_opp by_))].
    simpl. intros a b H. lra.
  - intros [[ | ] | ] v.
    + apply (sort_stable _ (measured by_) (measured_key by_)).
    + etransitivity; [symmetry; apply keyed_opp | ].
      etransitivity; [ | apply keyed_opp].
      apply (sort_stable _ (fun x => - measured by_ x) (measured_key_opp by_)).
    + apply (sort_stable _ (measured by_) (measured_key by_)).
  - intro N.
    apply (sort_rev _ _ combined (measured_key price) measured_key_desc).
    exact N.
Qed.

(** On the DashScope table no two entries share a price, a context window
    or an output limit; the three rankings differ. *)
Lemma ranked_spec_sample :
  rev (ranked DASHSCOPE_MODELS price (Some asc)) = ranked DASHSCOPE_MODELS price (Some desc)
  /\ ranked DASHSCOPE_MODELS price (Some asc) = [qwenturbo; qwenplus; qwen3max]
  /\ ranked DASHSCOPE_MODELS context (Some asc) = [qwenturbo; qwen3max; qwenplus]
  /\ ranked DASHSCOPE_MODELS output_ (Some desc) = [qwen3max; qwenplus; qwenturbo].
Proof.
  split; [ | repeat split; reflexivity].
  apply (ranked_spec DASHSCOPE_MODELS price). reflexivity.
Defined.

(* ================================================================== *)
(** ** The insights engine *)

(** C5, as stated, fails: [grok4] and [grok3] tie on the highest combined
    price, and the most expensive entry reported is the second of them. *)
Lemma mostExpensive_among_ties :
  exists m,
    Insights.pricing_mostExpensive (insights XAI_GROK) = Some m
    /\ ~ first_greatest combined anything (Object_values XAI_GROK) m.
Proof.
  exists grok3. split; [reflexivity | ].
  intros (l1 & l2 & E & _ & B1 & _).
  destruct l1 as [|a [|b l1]]; simpl in E.
  - apply (f_equal (map name)) in E. discriminate E.
  - assert (a = grok4) as ->
        by (apply (f_equal (@hd_error _)) in E; simpl in E; congruence).
    specialize (B1 grok4 (or_introl eq_refl) I).
    vm_compute in B1. discriminate B1.
  - apply (f_equal (@List.length _)) in E. simpl in E.
    rewrite length_app in E. simpl in E. lia.
Qed.

Lemma filter_nothing {A} (f : A -> bool) (l : list A) :
  (forall x, In x l -> f x = false) -> filter f l = [].
Proof.
  induction l as [|x l IH]; intro H; simpl.
  - reflexivity.
  - rewrite (H x) by now left. apply IH. intros; apply H; now right.
Qed.

Lemma nth_error_last_none {A} (s : list A) :
  nth_error s (List.length s - 1) = None -> s = [].
Proof.
  destruct s as [|a s]; [reflexivity | ].
  intro H. apply nth_error_None in H. simpl in H. lia.
Qed.

(** C5, amended.  The [providers] record of [insights] has every enumerated
    provider as a key, with the number of entries of that provider (0 when
    there is none).  The cheapest entry and the one of smallest context
    window are the first ones at the least value in registry order; the most
    expensive entry and the one of largest context window are the last ones
    at the greatest value in registry order. *)
Theorem insights_spec (registry : Registry) :
  let stats := insights registry in
  let values := Object_values registry in
  (forall p,
      assoc ModelProvider_eqb (Insights.providers stats) p
      = Some (List.length (filter (fun m => ModelProvider_eqb (provider m) p) values)))
  /\ (forall p, (forall m, In m values -> provider m <> p) ->
                assoc ModelProvider_eqb (Insights.providers stats) p = Some 0%nat)
  /\ match Insights.pricing_cheapest stats with
     | Some m => first_least combined anything values m
     | None => values = []
     end
  /\ match Insights.pricing_mostExpensive stats with
     | Some m => last_greatest combined anything values m
     | None => values = []
     end
  /\ match Insights.context_smallest stats with
     | Some m => first_least contextWindow anything values m
     | None => values = []
     end
  /\ match Insights.context_largest stats with
     | Some m => last_greatest contextWindow anything values m
     | None => values = []
     end.
Proof.
  intros stats values.
  assert (forall p,
      assoc ModelProvider_eqb (Insights.providers stats) p
      = Some (List.length (filter (fun m => ModelProvider_eqb (provider m) p) values)))
    as Count by (intro p; destruct p; reflexivity).
  split; [exact Count | ]. split.
  { intros p H. rewrite Count, filter_nothing; [reflexivity | ].
    intros m Hm. destruct (ModelProvider_eqb (provider m) p) eqn:E; [ | reflexivity].
    apply ModelProvider_eqb_eq in E. now apply H in Hm. }
  unfold stats, insights.
  cbn [Insights.pricing_cheapest Insights.pricing_mostExpensive
       Insights.context_smallest Insights.context_largest].
  fold values.
  repeat split;
    match goal with |- match ?x with _ => _ end => destruct x as [m | ] eqn:E end.
  - apply (sort_head _ combined price_key _ _ E).
  - destruct (sort _ values) eqn:S; [ | discriminate E]. now apply sort_nil in S.
  - apply (sort_last _ combined price_key _ _ E).
  - apply nth_error_last_none in E. now apply sort_nil in E.
  - apply (sort_head _ contextWindow (difference_key contextWindow) _ _ E).
  - destruct (sort _ values) eqn:S; [ | discriminate E]. now apply sort_nil in S.
  - apply (sort_last _ contextWindow (difference_key contextWindow) _ _ E).
  - apply nth_error_last_none in E. now apply sort_nil in E.
Qed.

(* ================================================================== *)
(** ** More on the registry and the query engine *)

Lemma find_first {A} (f : A -> bool) (l : list A) :
  match find f l with
  | Some m => exists l1 l2, l = l1 ++ m :: l2 /\ f m = true
                            /\ forall y, In y l1 -> f y = false
  | None => forall y, In y l -> f y = false
  end.
Proof.
  induction l as [|x l IH]; simpl.
  - intros y [].
  - destruct (f x) eqn:Fx.
    + exists [], l. repeat split; [exact Fx | intros y []].
    + destruct (find f l) as [m | ].
      * destruct IH as (l1 & l2 & -> & Fm & B). exists (x :: l1), l2.
        repeat split; [exact Fm | ]. intros y [<- | Hy]; [exact Fx | now apply B].
      * intros y [<- | Hy]; [exact Fx | now apply IH].
Qed.

(** X1. [resolve] returns the first entry, in registry order, whose full name is
    the one asked for, and nothing when no entry has it. *)
Theorem resolve_first_match (registry : Registry) (fullName' : string) :
  match resolve registry fullName' with
  | Some m =>
      exists l1 l2, Object_values registry = l1 ++ m :: l2
                    /\ fullName m = fullName'
                    /\ forall y, In y l1 -> fullName y <> fullName'
  | None => forall y, In y (Object_values registry) -> fullName y <> fullName'
  end.
Proof.
  unfold resolve.
  pose proof (find_first (fun m => String.eqb (fullName m) fullName')
                (Object_values registry)) as H.
  destruct (find _ (Object_values registry)) as [m | ].
  - destruct H as (l1 & l2 & E & Fm & B). exists l1, l2.
    repeat split; [exact E | now apply String.eqb_eq | ].
    intros y Hy. apply String.eqb_neq. now apply B.
  - intros y Hy. apply String.eqb_neq. now apply H.
Qed.

Lemma assoc_set (o : Registry) (k k' : string) (v : ModelConfig) :
  assoc String.eqb (set String.eqb o k v) k'
  = if String.eqb k k' then Some v else assoc String.eqb o k'.
Proof.
  induction o as [|[k0 v0] o IH]; simpl.
  - reflexivity.
  - destruct (String.eqb_spec k0 k) as [-> | N]; simpl.
    + destruct (String.eqb k k'); reflexivity.
    + rewrite IH. destruct (String.eqb_spec k0 k') as [-> | N']; [ | reflexivity].
      destruct (String.eqb_spec k k') as [-> | _]; [contradiction | reflexivity].
Qed.

Lemma assoc_app (a b : Registry) (k : string) :
  assoc String.eqb (a ++ b) k
  = match assoc String.eqb a k with
    | Some v => Some v
    | None => assoc String.eqb b k
    end.
Proof.
  induction a as [|[k0 v0] a IH]; simpl; [reflexivity | ].
  destruct (String.eqb k0 k); [reflexivity | exact IH].
Qed.

Lemma assoc_fresh (o : Registry) (k : string) :
  ~ In k (map fst o) -> assoc String.eqb o k = None.
Proof.
  induction o as [|[k0 v0] o IH]; simpl; intro H; [reflexivity | ].
  destruct (String.eqb_spec k0 k) as [-> | _]; [exfalso; apply H; now left | ].
  apply IH. intro C. apply H. now right.
Qed.

Lemma assoc_insert_index (n : N) (o : Registry) (k k' : string) (v : ModelConfig) :
  ~ In k (map fst o) ->
  assoc String.eqb (insert_index n k v o) k'
  = if String.eqb k k' then Some v else assoc String.eqb o k'.
Proof.
  induction o as [|[k0 v0] o IH]; simpl; intro H; [reflexivity | ].
  destruct (array_index k0) as [n0 | ]; [destruct (N.ltb n0 n) | ]; simpl;
    try reflexivity.
  rewrite IH by (intro C; apply H; now right).
  destruct (String.eqb_spec k0 k') as [-> | _]; [ | reflexivity].
  destruct (String.eqb_spec k k') as [-> | _]; [ | reflexivity].
  exfalso. apply H. now left.
Qed.

Lemma mem_false (s : string) (l : list string) : mem s l = false -> ~ In s l.
Proof. intros M C. apply mem_In in C. congruence. Qed.

Lemma assoc_put (o : Registry) (k k' : string) (v : ModelConfig) :
  assoc String.eqb (put o k v) k'
  = if String.eqb k k' then Some v else assoc String.eqb o k'.
Proof.
  unfold put. destruct (mem k (map fst o)) eqn:M; [apply assoc_set | ].
  apply mem_false in M. destruct (array_index k) as [n | ].
  - now apply assoc_insert_index.
  - rewrite assoc_app. simpl.
    destruct (String.eqb_spec k k') as [<- | _].
    + now rewrite assoc_fresh.
    + now destruct (assoc String.eqb o k').
Qed.

Lemma assoc_spread (a b : Registry) (k : string) :
  assoc String.eqb (spread a b) k
  = match assoc String.eqb (rev b) k with
    | Some v => Some v
    | None => assoc String.eqb a k
    end.
Proof.
  unfold spread. revert a. induction b as [|[k0 v0] b IH]; intro a; simpl.
  - reflexivity.
  - rewrite IH, assoc_app, assoc_put. simpl.
    destruct (assoc String.eqb (rev b) k); [reflexivity | ].
    destruct (String.eqb k0 k); reflexivity.
Qed.

(** X2. Merging one more provider table into the registry: a key of the new
    table reads as the entry that table gives it (its last one, should the
    table repeat the key), and every other key reads as before. *)
Theorem lookup_merge (tables : list Registry) (table : Registry) (name' : string) :
  lookup (merge (tables ++ [table])) name'
  = match assoc String.eqb (rev table) name' with
    | Some m => Some (Entry m)
    | None => lookup (merge tables) name'
    end.
Proof.
  unfold merge. rewrite fold_left_app. simpl.
  unfold lookup. rewrite assoc_spread.
  destruct (assoc String.eqb (rev table) name'); reflexivity.
Qed.

Lemma keys_set (o : Registry) (k : string) (v : ModelConfig) :
  map fst (set String.eqb o k v)
  = if mem k (map fst o) then map fst o else map fst o ++ [k].
Proof.
  induction o as [|[k0 v0] o IH]; simpl.
  - reflexivity.
  - destruct (String.eqb k0 k); simpl; [reflexivity | ].
    rewrite IH. now destruct (mem k (map fst o)).
Qed.

Lemma NoDup_snoc {A} (l : list A) (a : A) :
  NoDup l -> ~ In a l -> NoDup (l ++ [a]).
Proof.
  intros N H. induction N as [|x l Hx N IH]; simpl.
  - repeat constructor. intros [].
  - constructor.
    + intro C. apply in_app_or in C. destruct C as [C | [-> | []]]; [contradiction | ].
      apply H. now left.
    + apply IH. intro C. apply H. now right.
Qed.

Lemma keys_insert_index (n : N) (o : Registry) (k : string) (v : ModelConfig) :
  Permutation (map fst (insert_index n k v o)) (k :: map fst o).
Proof.
  induction o as [|[k0 v0] o IH]; simpl; [reflexivity | ].
  destruct (array_index k0) as [n0 | ]; [destruct (N.ltb n0 n) | ]; simpl;
    try reflexivity.
  rewrite IH. apply perm_swap.
Qed.

Lemma keys_put (o : Registry) (k : string) (v : ModelConfig) :
  NoDup (map fst o) -> NoDup (map fst (put o k v)).
Proof.
  intro N. unfold put. destruct (mem k (map fst o)) eqn:M.
  - now rewrite keys_set, M.
  - apply mem_false in M.
    assert (NoDup (k :: map fst o)) as N' by now constructor.
    destruct (array_index k) as [n | ].
    + apply (Permutation_NoDup (l := k :: map fst o)); [ | exact N'].
      symmetry. apply keys_insert_index.
    + rewrite map_app. now apply NoDup_snoc.
Qed.

Lemma keys_spread_unique (a b : Registry) :
  NoDup (map fst a) -> NoDup (map fst (spread a b)).
Proof.
  unfold spread. revert a. induction b as [|[k v] b IH]; intros a N; simpl.
  - exact N.
  - apply IH. now apply keys_put.
Qed.

(** X3. The merged registry never holds a key twice, whatever the tables. *)
Theorem merge_keys_unique (tables : list Registry) : NoDup (MODELS (merge tables)).
Proof.
  unfold MODELS, merge.
  assert (forall a, NoDup (map fst a) -> NoDup (map fst (fold_left spread tables a))) as H.
  { induction tables as [|t ts IH]; intros a N; simpl; [exact N | ].
    apply IH. now apply keys_spread_unique. }
  apply H. constructor.
Qed.

Lemma put_fresh (o : Registry) (k : string) (v : ModelConfig) :
  ~ In k (map fst o) -> array_index k = None -> put o k v = o ++ [(k, v)].
Proof.
  intros H I. unfold put. rewrite I.
  destruct (mem k (map fst o)) eqn:M; [ | reflexivity].
  apply mem_In in M. contradiction.
Qed.

(** X4. Merging a table whose keys are distinct, new, and none of them an
    array index appends its entries, in the table's order: registry order is
    table order, then order within the table. *)
Theorem spread_disjoint (a b : Registry) :
  NoDup (map fst b) ->
  (forall k, In k (map fst a) -> ~ In k (map fst b)) ->
  (forall k, In k (map fst b) -> array_index k = None) ->
  spread a b = a ++ b
  /\ Object_values (spread a b) = Object_values a ++ Object_values b.
Proof.
  intros N D I.
  assert (spread a b = a ++ b) as E.
  { unfold spread. revert a D. induction b as [|[k v] b IH]; intros a D; simpl.
    - now rewrite app_nil_r.
    - inversion N as [|? ? Hk N']; subst.
      rewrite put_fresh.
      + rewrite IH; [now rewrite <- app_assoc | exact N' | | ].
        * intros k0 H0. apply I. now right.
        * intros k0 H0 C. rewrite map_app in H0. apply in_app_or in H0.
          destruct H0 as [H0 | [<- | []]].
          -- apply (D k0 H0). now right.
          -- contradiction.
      + intro C. apply (D k C). now left.
      + apply I. now left. }
  split; [exact E | ]. unfold Object_values. now rewrite E, map_app.
Qed.

Lemma spread_disjoint_sample :
  Object_values (spread OTHER_MODELS DASHSCOPE_MODELS)
  = [llama31; qvq_72b; qwen3max; qwenplus; qwenturbo].
Proof.
  destruct (spread_disjoint OTHER_MODELS DASHSCOPE_MODELS) as [_ E].
  - simpl. repeat constructor; simpl; intuition discriminate.
  - simpl. intros k [<- | [<- | []]]; intuition discriminate.
  - simpl. intros k [<- | [<- | [<- | []]]]; reflexivity.
  - exact E.
Defined.

(** A key that is an array index goes in front of the other keys, wherever
    the table that brings it stands in the merge. *)
Example spread_array_index :
  MODELS (spread OTHER_MODELS [("7", copilot4o); ("gpt", grok4); ("3", grok3)]%string)
  = ["3"; "7"; "llama31"; "qvq-72b"; "gpt"]%string.
Proof. reflexivity. Qed.

Lemma assoc_In (o : Registry) (k : string) :
  In k (map fst o) -> exists m, assoc String.eqb o k = Some m /\ In m (map snd o).
Proof.
  induction o as [|[k0 v0] o IH]; simpl; intro H; [destruct H | ].
  destruct (String.eqb_spec k0 k) as [-> | N].
  - exists v0. auto.
  - destruct H as [E | H]; [contradiction | ].
    destruct (IH H) as (m & E & Hm). exists m. auto.
Qed.

(** X5. Every name of [MODELS] is known: [exists] holds of it, [lookup] yields an
    entry of the registry, and the cost functions called with the name do
    what they do with that entry. *)
Theorem models_resolve (registry : Registry) (name' : string) :
  In name' (MODELS registry) ->
  exists m,
    lookup registry name' = Some (Entry m)
    /\ In m (Object_values registry)
    /\ exists_ registry name' = true
    /\ (forall tokens, cost registry (Key name') tokens = cost registry (Config m) tokens)
    /\ (forall n, maxCost registry (Key name') n = maxCost registry (Config m) n).
Proof.
  intro H. destruct (assoc_In registry name' H) as (m & E & Hm).
  exists m. unfold lookup, exists_, cost, maxCost, config_of, lookup.
  rewrite E. auto.
Qed.

Lemma models_resolve_qwenplus :
  cost SAMPLE_CONFIGS (Key "qwenplus") {| input := 1000; output := 500; cached := None |}
  = cost SAMPLE_CONFIGS (Config qwenplus)
         {| input := 1000; output := 500; cached := None |}.
Proof.
  destruct (models_resolve SAMPLE_CONFIGS "qwenplus") as (m & L & _ & _ & C & _).
  - simpl. tauto.
  - injection L as <-. apply C.
Defined.

Lemma filter_partition {A} (f : A -> bool) (l : list A) :
  Permutation (filter (fun x => negb (f x)) l ++ filter f l) l.
Proof.
  induction l as [|x l IH]; simpl.
  - constructor.
  - destruct (f x); simpl.
    + rewrite <- Permutation_middle. now constructor.
    + now constructor.
Qed.

(** X6. [directAccess] and [openRouterOnly] split the registry: each entry is in
    exactly one of the two lists. *)
Theorem access_partition (registry : Registry) :
  Permutation (directAccess registry ++ openRouterOnly_ registry)
              (Object_values registry)
  /\ (forall m, In m (directAccess registry) -> ~ In m (openRouterOnly_ registry))
  /\ (List.length (directAccess registry) + List.length (openRouterOnly_ registry)
      = Insights.totalModels (insights registry))%nat.
Proof.
  unfold directAccess, openRouterOnly_. split; [apply filter_partition | ]. split.
  - intros m H C. apply filter_In in H, C. destruct H as [_ H], C as [_ C].
    rewrite C in H. discriminate H.
  - rewrite <- length_app. apply Permutation_length. apply filter_partition.
Qed.

(** X7. The lists [from] returns for the enumerated providers account for every
    entry once: their lengths, which are the counts of [insights], add up to
    [totalModels]. *)
Theorem from_partition (registry : Registry) :
  list_sum (map (fun p => List.length (from registry p)) ModelProvider_values)
  = Insights.totalModels (insights registry)
  /\ map snd (Insights.providers (insights registry))
     = map (fun p => List.length (from registry p)) ModelProvider_values.
Proof.
  split; [ | reflexivity].
  unfold from. simpl. induction (Object_values registry) as [|m l IH]; simpl.
  - reflexivity.
  - simpl in IH. destruct (provider m); simpl; lia.
Qed.

(** X8. Raising the bound of [withContext] narrows the result: the entries for
    the higher bound are those for the lower bound that also reach the
    higher one, in the same order. *)
Theorem withContext_refines (registry : Registry) (a b : Q) :
  a <= b ->
  withContext registry b
  = filter (fun m => Qle_bool b (contextWindow m)) (withContext registry a).
Proof.
  intro L. unfold withContext. rewrite filter_and. apply filter_ext. intro m.
  destruct (Qle_bool b (contextWindow m)) eqn:B.
  - apply Qle_bool_iff in B.
    assert (Qle_bool a (contextWindow m) = true) as -> by (apply Qle_bool_iff; lra).
    reflexivity.
  - now rewrite andb_false_r.
Qed.

Lemma withContext_refines_sample :
  withContext SAMPLE_CONFIGS 262144 = [qwen3max; qwenplus].
Proof.
  rewrite (withContext_refines SAMPLE_CONFIGS 131072 262144);
    [reflexivity | unfold Qle; simpl; lia].
Defined.

(* ================================================================== *)
(** ** More on the cost engine *)

(** X10. A prompt served entirely from the cache, with no output, costs the
    discount factor times what it costs without cache hits. *)
Theorem cache_discount (registry : Registry) (entry : ModelConfig) (i : Q) :
  exists full none,
    cost registry (Config entry) {| input := i; output := 0; cached := Some i |}
    = Return full
    /\ cost registry (Config entry) {| input := i; output := 0; cached := None |}
       = Return none
    /\ full == cacheDiscountFactor (capabilities entry) * none.
Proof.
  do 2 eexists. split; [reflexivity | ]. split; [reflexivity | ].
  cbn [input output cached]. per_million. ring.
Qed.

Lemma nonneg_plus (a b : Q) : 0 <= a -> 0 <= b -> 0 <= a + b.
Proof. intros; lra. Qed.

Lemma cost_of_nonnegative (entry : ModelConfig) (i o c : Q) :
  0 <= inputPrice entry -> 0 <= outputPrice entry ->
  0 <= cacheDiscountFactor (capabilities entry) ->
  0 <= c <= i -> 0 <= o ->
  exists v,
    cost_of (Entry entry) {| input := i; output := o; cached := Some c |} = Return v
    /\ 0 <= v.
Proof.
  intros P R F [C I] O. eexists. split; [reflexivity | ].
  cbn [input output cached]. per_million.
  apply nonneg_plus; [apply nonneg_plus | ].
  - apply Qmult_le_0_compat; [lra | exact P].
  - apply Qmult_le_0_compat; [ | exact F].
    apply Qmult_le_0_compat; [lra | exact P].
  - apply Qmult_le_0_compat; [lra | exact R].
Qed.

(** X12. On an entry with non-negative prices and discount factor, a usage with
    0 <= cached <= input and output >= 0 has a non-negative cost. *)
Theorem cost_nonnegative (registry : Registry) (entry : ModelConfig) (i o c : Q) :
  0 <= inputPrice entry -> 0 <= outputPrice entry ->
  0 <= cacheDiscountFactor (capabilities entry) ->
  0 <= c <= i -> 0 <= o ->
  exists v,
    cost registry (Config entry) {| input := i; output := o; cached := Some c |}
    = Return v
    /\ 0 <= v.
Proof.
  intros P R F C O. unfold cost. simpl. now apply cost_of_nonnegative.
Qed.

Lemma cost_nonnegative_scenario :
  exists v,
    cost SAMPLE_CONFIGS (Config scenario_A)
         {| input := 10000; output := 5000; cached := Some 8000 |} = Return v
    /\ 0 <= v.
Proof.
  apply (cost_nonnegative SAMPLE_CONFIGS scenario_A 10000 5000 8000);
    try split; unfold Qle; simpl; lia.
Defined.

(** X13. With non-negative prices, more input or more output tokens never cost
    less; in particular [maxCost] grows with the input. *)
Theorem cost_monotone (registry : Registry) (entry : ModelConfig)
        (i i' o o' : Q) (c : option Q) :
  0 <= inputPrice entry -> 0 <= outputPrice entry -> i <= i' -> o <= o' ->
  exists v v' w w',
    cost registry (Config entry) {| input := i; output := o; cached := c |} = Return v
    /\ cost registry (Config entry) {| input := i'; output := o'; cached := c |}
       = Return v'
    /\ v <= v'
    /\ maxCost registry (Config entry) i = Return w
    /\ maxCost registry (Config entry) i' = Return w'
    /\ w <= w'.
Proof.
  intros P R I O. do 4 eexists.
  split; [reflexivity | ]. split; [reflexivity | ].
  assert (forall x y z, x <= y -> (x - z) * (1 # 1000000) * inputPrice entry
                                  <= (y - z) * (1 # 1000000) * inputPrice entry) as In.
  { intros x y z L. apply Qmult_le_compat_r; [lra | exact P]. }
  assert (o * (1 # 1000000) * outputPrice entry
          <= o' * (1 # 1000000) * outputPrice entry) as Out.
  { apply Qmult_le_compat_r; [lra | exact R]. }
  split.
  - cbn [input output cached]. per_million.
    specialize (In i i' (match c with Some c0 => c0 | None => 0 end) I). lra.
  - split; [reflexivity | ]. split; [reflexivity | ].
    cbn [input output cached]. per_million. specialize (In i i' 0 I). lra.
Qed.

Lemma cost_monotone_qwenplus :
  exists v v',
    cost SAMPLE_CONFIGS (Config qwenplus)
         {| input := 1000; output := 200; cached := None |} = Return v
    /\ cost SAMPLE_CONFIGS (Config qwenplus)
            {| input := 2000; output := 300; cached := None |} = Return v'
    /\ v <= v'.
Proof.
  destruct (cost_monotone SAMPLE_CONFIGS qwenplus 1000 2000 200 300 None)
    as (v & v' & _ & _ & E & E' & L & _);
    [unfold Qle; simpl; lia | unfold Qle; simpl; lia
     | unfold Qle; simpl; lia | unfold Qle; simpl; lia | ].
  exists v, v'. auto.
Defined.

Lemma mapM_first_throw {A B} (f : A -> result B) (l1 l2 : list A) (a : A) (e : exn) :
  (forall x, In x l1 -> exists b, f x = Return b) -> f a = Throw e ->
  mapM f (l1 ++ a :: l2) = Throw e.
Proof.
  intros H Fa. induction l1 as [|x l1 IH]; simpl.
  - now rewrite Fa.
  - destruct (H x (or_introl eq_refl)) as [b ->]. simpl.
    rewrite IH by (intros; apply H; now right). reflexivity.
Qed.

Lemma mapM_returns_iff {A B} (f : A -> result B) (l : list A) :
  (exists bs, mapM f l = Return bs) <-> forall x, In x l -> exists b, f x = Return b.
Proof.
  induction l as [|a l IH]; simpl.
  - split; [intros _ x [] | intros _; now exists []].
  - destruct (f a) as [b | e] eqn:Fa; simpl.
    + destruct (mapM f l) as [bs | e] eqn:M; simpl.
      * split; [ | intros _; now eexists].
        intros _ x [<- | Hx]; [now exists b | ]. apply IH; [now exists bs | exact Hx].
      * split; [intros [bs E]; discriminate E | ].
        intro H. assert (exists bs, @Throw (list B) e = Return bs) as [bs E].
        { apply IH. intros; apply H; now right. }
        discriminate E.
    + split; [intros [bs E]; discriminate E | ].
      intro H. destruct (H a (or_introl eq_refl)) as [b E]. congruence.
Qed.

Lemma mapM_ext {A B} (f g : A -> result B) (l : list A) :
  (forall x, In x l -> f x = g x) -> mapM f l = mapM g l.
Proof.
  induction l as [|a l IH]; intro H; simpl.
  - reflexivity.
  - rewrite (H a) by now left. rewrite IH by (intros; apply H; now right).
    reflexivity.
Qed.

Lemma mapM_Forall2 {A B} (f : A -> result B) (l l' : list A) :
  Forall2 (fun x y => f x = f y) l l' -> mapM f l = mapM f l'.
Proof.
  induction 1 as [|x y l l' E F IH]; simpl.
  - reflexivity.
  - now rewrite E, IH.
Qed.

(** X14. [compareCosts] stops at the first model it cannot resolve: with entries
    (or keys of entries) in front of it, the error carries that key, and no
    comparison is returned. *)
Theorem compareCosts_first_failure (registry : Registry) (l1 l2 : list Model)
        (m : Model) (tokens : Tokens) :
  (forall x, In x l1 -> exists e, config_of registry x = Some (Entry e)) ->
  config_of registry m = None ->
  compareCosts registry (l1 ++ m :: l2) tokens = Throw (Error (unknown_model m)).
Proof.
  intros H N. unfold compareCosts.
  erewrite mapM_first_throw with (e := Error (unknown_model m)); [reflexivity | | ].
  - intros x Hx. destruct (H x Hx) as [e ->]. eexists. reflexivity.
  - now rewrite N.
Qed.

Lemma compareCosts_first_failure_sample :
  compareCosts SAMPLE_CONFIGS [Config llama31; Key "qwenplus"; Key "nope"; Key "nope2"]
               {| input := 1000; output := 500; cached := None |}
  = Throw (Error "Unknown model: nope").
Proof.
  apply (compareCosts_first_failure SAMPLE_CONFIGS
           [Config llama31; Key "qwenplus"] [Key "nope2"] (Key "nope")).
  - intros x [<- | [<- | []]]; eexists; reflexivity.
  - reflexivity.
Defined.

(** X15. [compareCosts] returns a comparison exactly when every model of the list
    is an entry or a string that [lookup] resolves to one. *)
Theorem compareCosts_returns_iff (registry : Registry) (models : list Model)
        (tokens : Tokens) :
  (exists priced, compareCosts registry models tokens = Return priced)
  <-> forall x, In x models -> exists e, config_of registry x = Some (Entry e).
Proof.
  unfold compareCosts.
  match goal with |- context [mapM ?g models] => set (f := g) end.
  assert ((exists bs, mapM f models = Return bs)
          <-> forall x, In x models -> exists e, config_of registry x = Some (Entry e))
    as R.
  { etransitivity; [apply mapM_returns_iff | ]. unfold f. split; intros H x Hx.
    - destruct (H x Hx) as [b Hb].
      destruct (config_of registry x) as [[e | n] | ]; [now exists e | | ];
        discriminate Hb.
    - destruct (H x Hx) as [e ->]. eexists. reflexivity. }
  rewrite <- R. destruct (mapM f models) as [bs | err]; simpl.
  - split; intros _; eexists; reflexivity.
  - split; intros [x E]; discriminate E.
Qed.

(** X16. Strings and entries are interchangeable in [compareCosts]: a list whose
    strings resolve gives the comparison of the entries they resolve to. *)
Theorem compareCosts_by_key (registry : Registry) (models : list Model)
        (entries : list ModelConfig) (tokens : Tokens) :
  Forall2 (fun x e => config_of registry x = Some (Entry e)) models entries ->
  compareCosts registry models tokens
  = compareCosts registry (map Config entries) tokens.
Proof.
  intro F. unfold compareCosts. f_equal.
  apply mapM_Forall2.
  induction F as [|x e models entries Hx F IH]; simpl; constructor.
  - now rewrite Hx.
  - exact IH.
Qed.

Lemma compareCosts_by_key_sample :
  compareCosts SAMPLE_CONFIGS [Key "qwenplus"; Config llama31; Key "copilot4o"]
               {| input := 1000; output := 500; cached := None |}
  = compareCosts SAMPLE_CONFIGS [Config qwenplus; Config llama31; Config copilot4o]
                 {| input := 1000; output := 500; cached := None |}.
Proof.
  apply (compareCosts_by_key SAMPLE_CONFIGS
           [Key "qwenplus"; Config llama31; Key "copilot4o"]
           [qwenplus; llama31; copilot4o]).
  repeat constructor.
Defined.

Lemma compareCosts_entries (registry : Registry) (entries : list ModelConfig)
      (tokens : Tokens) :
  compareCosts registry (map Config entries) tokens
  = Return (sort (fun a b => Priced.cost a - Priced.cost b)
              (map (fun e =>
                      {| Priced.model := e;
                         Priced.cost := match cost_of (Entry e) tokens with
                                        | Return v => v
                                        | Throw _ => 0
                                        end |}) entries)).
Proof.
  unfold compareCosts.
  erewrite mapM_return with
    (g := fun m => match m with
                   | Config e =>
                       {| Priced.model := e;
                          Priced.cost := match cost_of (Entry e) tokens with
                                         | Return v => v
                                         | Throw _ => 0
                                         end |}
                   | Key _ => {| Priced.model := scenario_A; Priced.cost := 0 |}
                   end).
  - now rewrite map_map.
  - intros a Ha. apply in_map_iff in Ha. destruct Ha as (e & <- & _). reflexivity.
Qed.

(** X17. The comparison of a list of entries has one pair per entry, and its
    first pair is a cheapest entry for the usage: no entry of the list costs
    less.  An empty list gives an empty comparison. *)
Theorem compareCosts_head (registry : Registry) (entries : list ModelConfig)
        (tokens : Tokens) :
  exists priced,
    compareCosts registry (map Config entries) tokens = Return priced
    /\ List.length priced = List.length entries
    /\ match priced with
       | [] => entries = []
       | best :: _ =>
           In (Priced.model best) entries
           /\ cost registry (Config (Priced.model best)) tokens
              = Return (Priced.cost best)
           /\ forall e, In e entries ->
                exists c, cost registry (Config e) tokens = Return c
                          /\ Priced.cost best <= c
       end.
Proof.
  eexists. split; [apply compareCosts_entries | ].
  set (pairs := map _ entries).
  set (cmp := fun a b => Priced.cost a - Priced.cost b).
  split.
  - rewrite (Permutation_length (sort_perm cmp pairs)). apply length_map.
  - destruct (sort cmp pairs) as [|best rest] eqn:S.
    + apply sort_nil in S. now apply map_eq_nil in S.
    + assert (nth_error (sort cmp pairs) 0 = Some best) as H by now rewrite S.
      apply (sort_head cmp Priced.cost (difference_key Priced.cost)) in H.
      destruct H as (l1 & l2 & E & _ & B1 & B2).
      assert (In best pairs) as Hb by (rewrite E; apply in_elt).
      apply in_map_iff in Hb. destruct Hb as (e0 & <- & He0).
      split; [exact He0 | ]. split; [reflexivity | ].
      intros e He. eexists. split; [reflexivity | ].
      assert (In {| Priced.model := e;
                    Priced.cost := match cost_of (Entry e) tokens with
                                   | Return v => v
                                   | Throw _ => 0
                                   end |} pairs) as Hp
          by (apply in_map_iff; now exists e).
      rewrite E in Hp. apply in_app_or in Hp. destruct Hp as [Hp | [Hp | Hp]].
      * specialize (B1 _ Hp I). simpl in B1. simpl. lra.
      * apply (f_equal Priced.cost) in Hp. simpl in Hp |- *.
        rewrite <- Hp. apply Qle_refl.
      * specialize (B2 _ Hp I). simpl in B2. simpl. lra.
Qed.

(* ================================================================== *)
(** ** More on the selection and insights engines *)

Lemma first_least_le {A} (key : A -> Q) (P : A -> Prop) (l : list A) (m y : A) :
  first_least key P l m -> In y l -> P y -> key m <= key y.
Proof.
  intros (l1 & l2 & -> & _ & B1 & B2) Hy Py.
  apply in_app_or in Hy. destruct Hy as [Hy | [<- | Hy]].
  - specialize (B1 y Hy Py). lra.
  - lra.
  - now apply B2.
Qed.

Lemma first_least_In {A} (key : A -> Q) (P : A -> Prop) (l : list A) (m : A) :
  first_least key P l m -> In m l /\ P m.
Proof.
  intros (l1 & l2 & -> & Pm & _). split; [apply in_elt | exact Pm].
Qed.

(** The selection idiom of [cheapest] and [smartpick]: filter, give up on an
    empty list, otherwise sort and take the first element. *)
Section Pick.
Context {A : Type}.
Variable compareFn : A -> A -> Q.
Variable key : A -> Q.
Hypothesis compare_key : forall a b, compareFn a b <= 0 <-> key a <= key b.
Variable l : list A.

Local Abbreviation pick F :=
  (match filter F l with
   | [] => None
   | _ :: _ => nth_error (sort compareFn (filter F l)) 0
   end).

Lemma pick_first_least (F : A -> bool) :
  match pick F with
  | Some m => first_least key (fun y => F y = true) l m
  | None => forall y, In y l -> F y = false
  end.
Proof.
  destruct (filter F l) as [|c cs] eqn:C.
  - intros y Hy. destruct (F y) eqn:Fy; [ | reflexivity].
    assert (In y (filter F l)) as H by (apply filter_In; auto).
    rewrite C in H. destruct H.
  - rewrite <- C.
    destruct (sort_head_some compareFn (filter F l)) as [m Hm];
      [rewrite C; discriminate | ].
    rewrite Hm.
    apply (first_least_filter key F (fun y => F y = true) l); [tauto | ].
    now apply (sort_head compareFn key compare_key).
Qed.

Lemma pick_mono (F G : A -> bool) :
  (forall y, In y l -> G y = true -> F y = true) ->
  match pick G, pick F with
  | Some g, Some f => key f <= key g
  | Some _, None => False
  | None, _ => True
  end.
Proof.
  intro Sub.
  pose proof (pick_first_least G) as HG. pose proof (pick_first_least F) as HF.
  destruct (pick G) as [g | ]; [ | exact I].
  apply first_least_In in HG. destruct HG as [Hg Gg].
  destruct (pick F) as [f | ].
  - apply (first_least_le key _ l f g HF Hg). now apply Sub.
  - specialize (HF g Hg). rewrite (Sub g Hg Gg) in HF. discriminate HF.
Qed.
End Pick.

Lemma matches_app (c : ModelCapabilities) (r1 r2 : PartialCapabilities) :
  matches c (r1 ++ r2) = matches c r1 && matches c r2.
Proof.
  induction r1 as [|[k v] r1 IH]; simpl; [reflexivity | ].
  destruct (strict_eq (get c k) v); simpl; [exact IH | reflexivity].
Qed.

(** X18. Asking [cheapest] for more capabilities never yields a cheaper entry:
    with further requirements the result, if any, costs at least as much,
    and there is none when there was none. *)
Theorem cheapest_monotone (registry : Registry) (required extra : PartialCapabilities)
        (options : option Options.t) :
  match cheapest registry (required ++ extra) options,
        cheapest registry required options with
  | Some m', Some m => combined m <= combined m'
  | Some _, None => False
  | None, _ => True
  end.
Proof.
  unfold cheapest. cbv zeta.
  apply (pick_mono _ combined (difference_key combined)).
  intros y _. cbv beta. rewrite matches_app.
  destruct (match options with Some _ => _ | None => _ end); [discriminate | ].
  destruct (match options with Some _ => _ | None => _ end); [discriminate | ].
  intro H. apply andb_true_iff in H. tauto.
Qed.

Lemma smartpick_pick (registry : Registry) (budget : Q)
      (required : option PartialCapabilities) :
  smartpick registry budget required
  = let F := fun m =>
               Qle_bool (combined m) budget
               && match required with
                  | Some r => matches (capabilities m) r
                  | None => true
                  end in
    match filter F (Object_values registry) with
    | [] => None
    | _ :: _ =>
        nth_error (sort (fun a b => combined b - combined a)
                     (filter F (Object_values registry))) 0
    end.
Proof.
  unfold smartpick, combined. cbv zeta.
  assert (match required with
          | Some r =>
              filter (fun m => matches (capabilities m) r)
                (filter (fun m => Qle_bool (inputPrice m + outputPrice m) budget)
                   (Object_values registry))
          | None =>
              filter (fun m => Qle_bool (inputPrice m + outputPrice m) budget)
                (Object_values registry)
          end
          = filter (fun m => Qle_bool (inputPrice m + outputPrice m) budget
                             && match required with
                                | Some r => matches (capabilities m) r
                                | None => true
                                end) (Object_values registry)) as ->.
  { destruct required as [r | ].
    - apply filter_and.
    - apply filter_ext. intro m. now rewrite andb_true_r. }
  reflexivity.
Qed.

(** X19. A larger budget never makes [smartpick] return a cheaper entry, nor
    lose its result. *)
Theorem smartpick_monotone (registry : Registry) (b1 b2 : Q)
        (required : option PartialCapabilities) :
  b1 <= b2 ->
  match smartpick registry b1 required, smartpick registry b2 required with
  | Some m1, Some m2 => combined m1 <= combined m2
  | Some _, None => False
  | None, _ => True
  end.
Proof.
  intro L. rewrite !smartpick_pick. cbv zeta.
  pose proof (pick_mono (fun a b => combined b - combined a) (fun x => - combined x)
                (opposite_key combined) (Object_values registry)
                (fun m => Qle_bool (combined m) b2
                          && match required with
                             | Some r => matches (capabilities m) r
                             | None => true
                             end)
                (fun m => Qle_bool (combined m) b1
                          && match required with
                             | Some r => matches (capabilities m) r
                             | None => true
                             end)) as H.
  cbv beta in H.
  destruct (match filter _ (Object_values registry) with [] => None | _ :: _ => _ end)
    as [m1 | ]; [ | exact I].
  destruct (match filter _ (Object_values registry) with [] => None | _ :: _ => _ end)
    as [m2 | ].
  - assert (- combined m2 <= - combined m1); [ | lra].
    apply H. intros y _ Hy. apply andb_true_iff in Hy. destruct Hy as [B M].
    apply andb_true_iff. split; [ | exact M].
    apply Qle_bool_iff in B. apply Qle_bool_iff. lra.
  - apply H. intros y _ Hy. apply andb_true_iff in Hy. destruct Hy as [B M].
    apply andb_true_iff. split; [ | exact M].
    apply Qle_bool_iff in B. apply Qle_bool_iff. lra.
Qed.

Lemma smartpick_monotone_sample :
  smartpick SAMPLE_CONFIGS 1 None = Some qvq_72b
  /\ smartpick SAMPLE_CONFIGS 5 None = Some qwenplus
  /\ combined qvq_72b <= combined qwenplus.
Proof.
  assert (smartpick SAMPLE_CONFIGS 1 None = Some qvq_72b) as E1 by reflexivity.
  assert (smartpick SAMPLE_CONFIGS 5 None = Some qwenplus) as E2 by reflexivity.
  generalize (smartpick_monotone SAMPLE_CONFIGS 1 5 None).
  rewrite E1, E2. intro H. repeat split. apply H. unfold Qle; simpl; lia.
Defined.


(** X21. The cheapest entry [insights] reports is the first entry of the
    ascending price ranking, and what [cheapest] returns when nothing is
    required. *)
Theorem insights_cheapest (registry : Registry) :
  Insights.pricing_cheapest (insights registry)
  = nth_error (ranked registry price None) 0
  /\ Insights.pricing_cheapest (insights registry) = cheapest registry [] None.
Proof.
  split; [reflexivity | ].
  unfold cheapest, insights. cbv zeta. cbn [Insights.pricing_cheapest].
  rewrite filter_all by reflexivity.
  destruct (Object_values registry); reflexivity.
Qed.

(** X22. The first entry of the descending price ranking and the most expensive
    entry of [insights] have the same combined price, though not always the
    same name: among entries tied at the top the ranking puts the first one
    in front and [insights] reports the last one. *)
Theorem priciest_agree (registry : Registry) :
  match nth_error (ranked registry price (Some desc)) 0,
        Insights.pricing_mostExpensive (insights registry) with
  | Some a, Some b => combined a == combined b
  | None, None => Object_values registry = []
  | _, _ => False
  end.
Proof.
  unfold insights, ranked. cbv zeta. cbn [Insights.pricing_mostExpensive].
  change (fun a b : ModelConfig =>
            inputPrice a + outputPrice a - (inputPrice b + outputPrice b))
    with (fun a b : ModelConfig => combined a - combined b).
  set (l := Object_values registry).
  pose proof (sort_head (fun a b => - (getValue price a - getValue price b))
                (fun x => - combined x) (negated_key combined) l) as H.
  pose proof (sort_last (fun a b => combined a - combined b)
                combined (difference_key combined) l) as L.
  destruct (nth_error (sort (fun a b => - (getValue price a - getValue price b)) l) 0)
    as [a | ] eqn:Ea.
  - specialize (H a eq_refl).
    destruct (nth_error (sort (fun a b => combined a - combined b) l) _)
      as [b | ] eqn:Eb.
    + specialize (L b eq_refl).
      destruct H as (h1 & h2 & Eh & _ & H1 & H2).
      destruct L as (k1 & k2 & Ek & _ & K1 & K2).
      assert (In a l) as Ha by (rewrite Eh; apply in_elt).
      assert (In b l) as Hb by (rewrite Ek; apply in_elt).
      assert (combined a <= combined b).
      { rewrite Ek in Ha. apply in_app_or in Ha. destruct Ha as [Ha | [<- | Ha]].
        - now apply K1.
        - lra.
        - specialize (K2 a Ha I). lra. }
      assert (combined b <= combined a).
      { rewrite Eh in Hb. apply in_app_or in Hb. destruct Hb as [Hb | [<- | Hb]].
        - specialize (H1 b Hb I). simpl in H1. lra.
        - lra.
        - specialize (H2 b Hb I). simpl in H2. lra. }
      lra.
    + apply nth_error_last_none in Eb. apply sort_nil in Eb.
      rewrite Eb in Ea. discriminate Ea.
  - destruct (sort (fun a b => - (getValue price a - getValue price b)) l) eqn:S;
      [ | discriminate Ea].
    apply sort_nil in S. rewrite S. reflexivity.
Qed.

(** X23. The [capabilities] record of [insights] has the eight short labels as
    keys, in this order, and under each the number of entries [supporting]
    returns for the flag the label comes from. *)
Theorem insights_capabilities (registry : Registry) :
  Insights.capabilities (insights registry)
  = [("FunctionCalling", List.length (supporting registry K_supportsFunctionCalling));
     ("Reasoning", List.length (supporting registry K_supportsReasoning));
     ("Vision", List.length (supporting registry K_supportsVision));
     ("CodeExecution", List.length (supporting registry K_supportsNativeCodeExecution));
     ("WebSearch", List.length (supporting registry K_supportsNativeWebSearch));
     ("PromptCaching", List.length (supporting registry K_supportsPromptCaching));
     ("Pdf", List.length (supporting registry K_supportsNativePdf));
     ("Audio", List.length (supporting registry K_supportsNativeAudio))]%string.
Proof. reflexivity. Qed.

(** X24. The legacy [sortModelsByMetric]: for each of the three metrics, when no
    two entries share a value, the descending order is the default
    (ascending) order reversed. *)
Theorem sortModelsByMetric_reverse (registry : Registry) (metric : Metric) :
  no_ties (getValue metric) (Object_values registry) = true ->
  sortModelsByMetric registry metric (Some false)
  = rev (sortModelsByMetric registry metric None).
Proof.
  intro N. unfold sortModelsByMetric, ranked. cbv zeta. symmetry.
  apply (sort_rev _ _ (getValue metric)
           (difference_key (getValue metric)) (negated_key_desc (getValue metric))).
  exact N.
Qed.

Lemma sortModelsByMetric_reverse_dashscope :
  sortModelsByMetric DASHSCOPE_MODELS context (Some false)
  = rev (sortModelsByMetric DASHSCOPE_MODELS context None).
Proof.
  apply (sortModelsByMetric_reverse DASHSCOPE_MODELS context). reflexivity.
Defined.

(** X25. The legacy [findCheapestModel]: a minimum context window of 0 is taken
    as no minimum at all. *)
Theorem findCheapestModel_zero (registry : Registry)
        (requirements : PartialCapabilities) (n : Q) :
  n == 0 ->
  findCheapestModel registry requirements (Some n)
  = findCheapestModel registry requirements None.
Proof.
  intro Z. unfold findCheapestModel, cheapest. cbv zeta.
  cbn [Options.minContext Options.provider].
  rewrite (Qeq_eq_bool _ _ Z). reflexivity.
Qed.

Lemma findCheapestModel_zero_sample :
  findCheapestModel SAMPLE_CONFIGS [(K_supportsReasoning, VBool true)] (Some 0)
  = findCheapestModel SAMPLE_CONFIGS [(K_supportsReasoning, VBool true)] None.
Proof.
  apply (findCheapestModel_zero SAMPLE_CONFIGS). reflexivity.
Defined.

(* ================================================================== *)
(** ** Validation *)

Lemma positive_lt (n : Q) : positive n = true -> 0 < n.
Proof.
  unfold positive. intro H. apply negb_true_iff in H. now apply Qle_bool_false.
Qed.

(** X26. A registry that [ModelRegistrySchema] accepts has, on every entry,
    positive limits, non-negative prices and a discount factor between 0 and
    1; the cost of a usage with 0 <= cached <= input and output >= 0 is then
    never negative. *)
Theorem schema_invariants (url : string -> bool) (registry : Registry) :
  ModelRegistrySchema url registry = true ->
  positive_windows registry
  /\ forall m, In m (Object_values registry) ->
       0 < maxOutputTokens m /\ 0 <= inputPrice m /\ 0 <= outputPrice m
       /\ 0 <= cacheDiscountFactor (capabilities m) <= 1
       /\ forall i o c, 0 <= c <= i -> 0 <= o ->
            exists v,
              cost registry (Config m) {| input := i; output := o; cached := Some c |}
              = Return v
              /\ 0 <= v.
Proof.
  unfold ModelRegistrySchema. rewrite forallb_forall. intro V.
  assert (forall m, In m (Object_values registry) -> ModelConfigSchema url m = true) as W.
  { intros m Hm. apply in_map_iff in Hm. destruct Hm as ([k m'] & <- & Hm).
    exact (V _ Hm). }
  split.
  - apply Forall_forall. intros m Hm. specialize (W m Hm).
    unfold ModelConfigSchema in W. rewrite !andb_true_iff in W.
    apply positive_lt. tauto.
  - intros m Hm. specialize (W m Hm).
    unfold ModelConfigSchema, ModelCapabilitiesSchema in W.
    rewrite !andb_true_iff, !Qle_bool_iff in W.
    destruct W as [[[[[M I] O] _] [F0 F1]] _]. apply positive_lt in M.
    repeat split; try assumption.
    intros i o c C Out. unfold cost. simpl. now apply cost_of_nonnegative.
Qed.

Lemma schema_invariants_sample :
  positive_windows SAMPLE_CONFIGS.
Proof.
  apply (schema_invariants (fun _ => true) SAMPLE_CONFIGS). reflexivity.
Defined.
